(** * Tools_IN: discharge-volume engine (uvf2volume, uvf2volume_soll, linear_interpolation)

    Shallow embedding of the volume / extremes computations of
    [Tools/uvf2volume/uvf2volume.py], of the table interpolation of
    [Tools/uvf2volume_soll.py] and of [Tools/linear_interpolation.py].

    Conventions of the embedding:
    - Python [float] values are rationals ([Q]); arithmetic is exact.
      Rounding is not modelled: which samples, branches and formulas the
      code uses carries over to binary64, an equality or an order between
      two computed values holds up to the rounding of those values.
    - A naive [datetime.datetime] is a record of its seven fields, compared
      field by field as CPython does; subtraction goes through the proleptic
      Gregorian ordinal, as [datetime.__sub__] does, and yields a number of
      microseconds.
    - Python exceptions are values of [py_error] carried by [result]. *)

From Stdlib Require Import ZArith QArith List Bool Lia Lqa Sorted
  Permutation.
Import ListNotations.

Open Scope Z_scope.

(** ** Exceptions *)

Inductive py_error : Set :=
| IndexError
| ZeroDivisionError
| ValueError.

Inductive result (A : Type) : Type :=
| Ok (a : A)
| Raise (e : py_error).

Arguments Ok {A} a.
Arguments Raise {A} e.

Definition bind {A B : Type} (r : result A) (k : A -> result B) : result B :=
  match r with
  | Ok a => k a
  | Raise e => Raise e
  end.

Notation "x <- r ;; k" := (bind r (fun x => k))
  (at level 61, r at next level, right associativity).

(** Strict comparison of floats, [a < b]. *)
Definition Qltb (a b : Q) : bool := negb (Qle_bool b a).

(** ** The [datetime] module of the Python standard library *)

Module Datetime.

Record datetime : Set := mk_datetime {
  year : Z;
  month : Z;
  day : Z;
  hour : Z;
  minute : Z;
  second : Z;
  microsecond : Z
}.

Definition _is_leap (year : Z) : bool :=
  (year mod 4 =? 0) && (negb (year mod 100 =? 0) || (year mod 400 =? 0)).

Definition _days_before_year (year : Z) : Z :=
  let y := year - 1 in
  y * 365 + y / 4 - y / 100 + y / 400.

Definition _DAYS_IN_MONTH (month : Z) : Z :=
  match month with
  | 1 => 31 | 2 => 28 | 3 => 31 | 4 => 30 | 5 => 31 | 6 => 30
  | 7 => 31 | 8 => 31 | 9 => 30 | 10 => 31 | 11 => 30 | 12 => 31
  | _ => -1
  end.

Definition _DAYS_BEFORE_MONTH (month : Z) : Z :=
  match month with
  | 1 => 0 | 2 => 31 | 3 => 59 | 4 => 90 | 5 => 120 | 6 => 151
  | 7 => 181 | 8 => 212 | 9 => 243 | 10 => 273 | 11 => 304 | 12 => 334
  | _ => -1
  end.

Definition _days_in_month (year month : Z) : Z :=
  if (month =? 2) && _is_leap year then 29 else _DAYS_IN_MONTH month.

Definition _days_before_month (year month : Z) : Z :=
  _DAYS_BEFORE_MONTH month + (if (2 <? month) && _is_leap year then 1 else 0).

Definition _ymd2ord (year month day : Z) : Z :=
  _days_before_year year + _days_before_month year month + day.

(** The range checks of the constructor ([_check_date_fields],
    [_check_time_fields]). *)
Definition check_fields (d : datetime) : bool :=
  (1 <=? year d) && (year d <=? 9999) &&
  (1 <=? month d) && (month d <=? 12) &&
  (1 <=? day d) && (day d <=? _days_in_month (year d) (month d)) &&
  (0 <=? hour d) && (hour d <=? 23) &&
  (0 <=? minute d) && (minute d <=? 59) &&
  (0 <=? second d) && (second d <=? 59) &&
  (0 <=? microsecond d) && (microsecond d <=? 999999).

(** [datetime(year, month, day, hour, minute, second, microsecond)]. *)
Definition new (y mo d h mi s us : Z) : result datetime :=
  let dt := mk_datetime y mo d h mi s us in
  if check_fields dt then Ok dt else Raise ValueError.

(** Comparison: the field tuples are compared lexicographically. *)
Definition lex (c1 c2 : comparison) : comparison :=
  match c1 with
  | Eq => c2
  | _ => c1
  end.

Definition cmp (a b : datetime) : comparison :=
  lex (year a ?= year b)
 (lex (month a ?= month b)
 (lex (day a ?= day b)
 (lex (hour a ?= hour b)
 (lex (minute a ?= minute b)
 (lex (second a ?= second b)
      (microsecond a ?= microsecond b)))))).

Definition eqb (a b : datetime) : bool :=
  match cmp a b with Eq => true | _ => false end.
Definition ltb (a b : datetime) : bool :=
  match cmp a b with Lt => true | _ => false end.
Definition leb (a b : datetime) : bool :=
  match cmp a b with Gt => false | _ => true end.
Definition gtb (a b : datetime) : bool := ltb b a.
Definition geb (a b : datetime) : bool := leb b a.

(** Builtin [max(a, b)] and [min(a, b)]: the first argument wins ties. *)
Definition max (a b : datetime) : datetime := if gtb b a then b else a.
Definition min (a b : datetime) : datetime := if ltb b a then b else a.

Definition toordinal (d : datetime) : Z :=
  _ymd2ord (year d) (month d) (day d).

(** A [timedelta], as its total number of microseconds. *)
Definition timedelta : Set := Z.

(** [a - b] for two datetimes. *)
Definition sub (a b : datetime) : timedelta :=
  let days := toordinal a - toordinal b in
  let secs1 := second a + minute a * 60 + hour a * 3600 in
  let secs2 := second b + minute b * 60 + hour b * 3600 in
  (days * 86400 + (secs1 - secs2)) * 1000000
  + (microsecond a - microsecond b).

Definition total_seconds (td : timedelta) : Q := td # 1000000.

(** [t.date()], as (year, month, day). *)
Definition date_t : Set := (Z * Z * Z)%type.

Definition date (d : datetime) : date_t := (year d, month d, day d).

Definition date_eqb (a b : date_t) : bool :=
  let '(y1, m1, d1) := a in
  let '(y2, m2, d2) := b in
  (y1 =? y2) && (m1 =? m2) && (d1 =? d2).

(** Microseconds since the start of ordinal day 0. *)
Definition to_us (d : datetime) : Z :=
  (toordinal d * 86400 + (second d + minute d * 60 + hour d * 3600)) * 1000000
  + microsecond d.

End Datetime.

(** ** Tools/uvf2volume/uvf2volume.py

    [Tools/uvf2volume_soll.py] carries copies of [calculate_volume],
    [_hydro_year], [compute_hydrologic_year_volumes] and
    [get_daily_extremes] with the same control flow; they are embedded
    once. *)

Module Uvf2volume.

Import Datetime.

(** An element of [data]: [(datetime, q)]. *)
Definition sample : Set := (datetime * Q)%type.

(** First loop of [calculate_volume]: "FIND q AT start_time". *)
Fixpoint find_q_at_start (data : list sample) (start_time : datetime)
    (prev : option sample) : option sample :=
  match data with
  | [] => prev
  | (t, q) :: rest =>
      if gtb t start_time then prev
      else find_q_at_start rest start_time (Some (t, q))
  end.

(** Second loop of [calculate_volume]: "ACCUMULATE q*dt UNTIL end_time". *)
Fixpoint accumulate (data : list sample) (end_time prev_time : datetime)
    (prev_q total_volume : Q) : Q :=
  match data with
  | [] => total_volume
  | (t, q) :: rest =>
      if leb t prev_time then
        accumulate rest end_time prev_time prev_q total_volume
      else if geb t end_time then
        (total_volume + prev_q * total_seconds (sub end_time prev_time))%Q
      else
        accumulate rest end_time t q
          (total_volume + prev_q * total_seconds (sub t prev_time))%Q
  end.

Definition calculate_volume (data : list sample)
    (start_time end_time : datetime) : Q :=
  match data with
  | [] => 0%Q
  | first :: _ =>
      if eqb start_time end_time then 0%Q
      else
        let '(start_time, end_time) :=
          if gtb start_time end_time then (end_time, start_time)
          else (start_time, end_time) in
        let data_start := fst first in
        let data_end := fst (last data first) in
        if leb end_time data_start then 0%Q
        else if geb start_time data_end then 0%Q
        else
          let start_time :=
            if ltb start_time data_start then data_start else start_time in
          let end_time :=
            if gtb end_time data_end then data_end else end_time in
          if geb start_time end_time then 0%Q
          else
            match find_q_at_start data start_time None with
            | None => 0%Q
            | Some (prev_time, prev_q) =>
                let prev_time :=
                  if ltb prev_time start_time then start_time
                  else prev_time in
                accumulate data end_time prev_time prev_q 0%Q
            end
  end.

Definition _hydro_year (dt : datetime) : Z :=
  if month dt <=? 10 then year dt else year dt + 1.

Record YearVolumeResult : Set := mk_year_volume {
  yv_year : Z;
  interval_start : datetime;
  interval_end : datetime;
  volume_m3 : Q
}.

(** [range(a, b)]. *)
Definition py_range (a b : Z) : list Z :=
  map (fun i => a + Z.of_nat i) (seq 0 (Z.to_nat (b - a))).

(** Body of [for year in range(first_hy, last_hy + 1)]. *)
Fixpoint hydro_loop (data : list sample) (start_time end_time : datetime)
    (years : list Z) (results : list YearVolumeResult)
    : result (list YearVolumeResult) :=
  match years with
  | [] => Ok results
  | year :: rest =>
      hydro_start <- new (year - 1) 11 1 0 0 0 0 ;;
      hydro_end <- new year 10 31 23 59 59 0 ;;
      let interval_start := max start_time hydro_start in
      let interval_end := min end_time hydro_end in
      if geb interval_start interval_end then
        hydro_loop data start_time end_time rest results
      else
        let vol := calculate_volume data interval_start interval_end in
        hydro_loop data start_time end_time rest
          (results ++ [mk_year_volume year interval_start interval_end vol])
  end.

Definition compute_hydrologic_year_volumes (data : list sample)
    (start_time end_time : datetime) : result (list YearVolumeResult) :=
  let '(start_time, end_time) :=
    if gtb start_time end_time then (end_time, start_time)
    else (start_time, end_time) in
  let first_hy := _hydro_year start_time in
  let last_hy := _hydro_year end_time in
  hydro_loop data start_time end_time (py_range first_hy (last_hy + 1)) [].

Record DayExtreme : Set := mk_day_extreme {
  ex_date : date_t;
  ex_min : Q;
  ex_max : Q
}.

(** The loop of [get_daily_extremes].  [cur] holds [current_day],
    [day_min] and [day_max], which are [None] together. *)
Fixpoint scan_days (data : list sample) (start_time end_time : datetime)
    (cur : option (date_t * Q * Q)) (results : list DayExtreme)
    : option (date_t * Q * Q) * list DayExtreme :=
  match data with
  | [] => (cur, results)
  | (t, q) :: rest =>
      if ltb t start_time then
        scan_days rest start_time end_time cur results
      else if gtb t end_time then (cur, results)
      else
        let day := date t in
        match cur with
        | None => scan_days rest start_time end_time (Some (day, q, q)) results
        | Some (current_day, day_min, day_max) =>
            if date_eqb day current_day then
              let day_min := if Qltb q day_min then q else day_min in
              let day_max := if Qltb day_max q then q else day_max in
              scan_days rest start_time end_time
                (Some (current_day, day_min, day_max)) results
            else
              scan_days rest start_time end_time (Some (day, q, q))
                (results ++ [mk_day_extreme current_day day_min day_max])
        end
  end.

Definition get_daily_extremes (data : list sample)
    (start_time end_time : datetime) : list DayExtreme :=
  let '(start_time, end_time) :=
    if gtb start_time end_time then (end_time, start_time)
    else (start_time, end_time) in
  let '(cur, results) := scan_days data start_time end_time None [] in
  match cur with
  | Some (current_day, day_min, day_max) =>
      results ++ [mk_day_extreme current_day day_min day_max]
  | None => results
  end.

End Uvf2volume.

(** ** Python lists and the [bisect] module *)

(** [l[i]] for an integer index: negative indices count from the end. *)
Definition getitem {A : Type} (l : list A) (i : Z) : result A :=
  let n := Z.of_nat (length l) in
  let j := if i <? 0 then i + n else i in
  if (j <? 0) || (n <=? j) then Raise IndexError
  else
    match nth_error l (Z.to_nat j) with
    | Some a => Ok a
    | None => Raise IndexError
    end.

(** Float division [a / b]. *)
Definition truediv (a b : Q) : result Q :=
  if Qeq_bool b 0 then Raise ZeroDivisionError else Ok (a / b)%Q.

(** The [while lo < hi] loop of [bisect.bisect_left].  The interval
    [hi - lo] shrinks at every iteration, so [fuel >= hi - lo] iterations
    are never exhausted (see [bisect_loop_fuel]). *)
Fixpoint bisect_loop (fuel : nat) (a : list Q) (x : Q) (lo hi : nat) : nat :=
  match fuel with
  | O => lo
  | S fuel' =>
      if (lo <? hi)%nat then
        let mid := ((lo + hi) / 2)%nat in
        if Qltb (nth mid a 0%Q) x then bisect_loop fuel' a x (mid + 1) hi
        else bisect_loop fuel' a x lo mid
      else lo
  end.

Definition bisect_left (a : list Q) (x : Q) : nat :=
  bisect_loop (length a) a x 0 (length a).

(** [sorted(l, key=key)]: a stable sort; insertion after the last element
    whose key is not greater keeps equal keys in encounter order. *)
Fixpoint insert_by_key {A : Type} (key : A -> Q) (i : A) (l : list A) : list A :=
  match l with
  | [] => [i]
  | j :: l' =>
      if Qltb (key i) (key j) then i :: j :: l'
      else j :: insert_by_key key i l'
  end.

Definition sorted_by_key {A : Type} (key : A -> Q) (l : list A) : list A :=
  fold_left (fun acc i => insert_by_key key i acc) l [].

(** ** Tools/uvf2volume_soll.py *)

Module Uvf2volumeSoll.

(** [load_table_2col], from the parsed rows [(x, y)] of the CSV file. *)
Definition load_table_2col (rows : list (Q * Q)) : list Q * list Q :=
  let xs := map fst rows in
  let ys := map snd rows in
  let order := sorted_by_key (fun i => nth i xs 0%Q) (seq 0 (length xs)) in
  (map (fun i => nth i xs 0%Q) order, map (fun i => nth i ys 0%Q) order).

Definition interp (x : Q) (xs ys : list Q) : result Q :=
  xs_first <- getitem xs 0 ;;
  if Qle_bool x xs_first then getitem ys 0
  else
    xs_last <- getitem xs (-1) ;;
    if Qle_bool xs_last x then getitem ys (-1)
    else
      let i := Z.of_nat (bisect_left xs x) in
      x0 <- getitem xs (i - 1) ;;
      y0 <- getitem ys (i - 1) ;;
      x1 <- getitem xs i ;;
      y1 <- getitem ys i ;;
      t <- truediv (x - x0) (x1 - x0) ;;
      Ok (y0 + t * (y1 - y0))%Q.

End Uvf2volumeSoll.

(** ** Tools/linear_interpolation.py *)

Module LinearInterpolation.

Definition lerp_with_bisect (x0 x1 y0 y1 x : Q) : result Q :=
  let xs := [x0; x1] in
  let idx := Z.of_nat (bisect_left xs x) in
  let i0 := idx - 1 in
  let i1 := idx in
  x_start <- getitem xs i0 ;;
  x_end <- getitem xs i1 ;;
  t <- truediv (x - x_start) (x_end - x_start) ;;
  Ok (y0 + t * (y1 - y0))%Q.

End LinearInterpolation.

(** * Vocabulary of the specification *)

Module Spec.

Import Datetime Uvf2volume.

(** A datetime that the constructor accepts; every [datetime] object of
    a run is one. *)
Definition valid (d : datetime) : Prop := check_fields d = true.

Definition valid_series (data : list sample) : Prop :=
  Forall (fun s => valid (fst s)) data.

Definition nonneg_series (data : list sample) : Prop :=
  Forall (fun s => 0 <= snd s)%Q data.

(** Timestamps in ascending order, ties allowed. *)
Definition ascending (data : list sample) : Prop :=
  Sorted (fun s1 s2 => leb (fst s1) (fst s2) = true) data.

(** Timestamps in ascending order, no two equal. *)
Definition strictly_ascending (data : list sample) : Prop :=
  Sorted (fun s1 s2 => ltb (fst s1) (fst s2) = true) data.

(** [sum(value[i] * (t[i+1] - t[i]).total_seconds())] over the
    consecutive pairs of the series. *)
Fixpoint step_sum (data : list sample) : Q :=
  match data with
  | (t0, q0) :: ((t1, _) :: _) as rest =>
      (q0 * total_seconds (sub t1 t0) + step_sum rest)%Q
  | _ => 0%Q
  end.

(** Length in seconds of the part of the segment [[t0, t1]] that lies
    in [[a, b]]. *)
Definition overlap (t0 t1 a b : datetime) : Q :=
  total_seconds
    (Z.max 0 (Z.min (to_us t1) (to_us b) - Z.max (to_us t0) (to_us a))).

(** Integral over [[a, b]] of the step function of the series: every
    sample's value holds until the next sample's timestamp. *)
Fixpoint step_integral (data : list sample) (a b : datetime) : Q :=
  match data with
  | (t0, q0) :: ((t1, _) :: _) as rest =>
      (q0 * overlap t0 t1 a b + step_integral rest a b)%Q
  | _ => 0%Q
  end.

(** A day entry accounts for a sample of value [q] on day [d]. *)
Definition covers (r : DayExtreme) (d : date_t) (q : Q) : Prop :=
  ex_date r = d /\ (ex_min r <= q)%Q /\ (q <= ex_max r)%Q.

(** State of the scan in which the sample [(d, q)] is accounted for,
    by the open day or by an entry already emitted. *)
Definition tracked (st : option (date_t * Q * Q) * list DayExtreme)
    (d : date_t) (q : Q) : Prop :=
  (exists mn mx, fst st = Some (d, mn, mx) /\ (mn <= q)%Q /\ (q <= mx)%Q)
  \/ (exists r, In r (snd st) /\ covers r d q).

(** Two series with the same timestamps whose values agree on every
    sample strictly before [end_time]. *)
Definition agree_before (end_time : datetime) (data data' : list sample)
    : Prop :=
  Forall2
    (fun s s' =>
       fst s = fst s' /\ (ltb (fst s) end_time = true -> snd s = snd s'))
    data data'.

(** Bounds of hydrologic year [n]: 01 Nov (n-1) 00:00:00 and
    31 Oct n 23:59:59. *)
Definition hydro_start (n : Z) : datetime :=
  mk_datetime (n - 1) 11 1 0 0 0 0.

Definition hydro_end (n : Z) : datetime :=
  mk_datetime n 10 31 23 59 59 0.

(** [t] lies in the closed interval [[a, b]]. *)
Definition in_closed (a b t : datetime) : Prop :=
  leb a t = true /\ leb t b = true.

(** [t] lies in one of the emitted intervals. *)
Definition covered_by (rs : list YearVolumeResult) (t : datetime) : Prop :=
  exists r,
    In r rs /\ in_closed (interval_start r) (interval_end r) t.

(** What one iteration of the year loop appends. *)
Definition year_result (data : list sample) (s e : datetime) (n : Z)
    : list YearVolumeResult :=
  let i_start := max s (hydro_start n) in
  let i_end := min e (hydro_end n) in
  if geb i_start i_end then []
  else [mk_year_volume n i_start i_end
          (calculate_volume data i_start i_end)].

(** The interval normalizer as the specification words it (section 4.2):
    [None] is the Empty interval. *)
Definition normalize (first_ts last_ts start_time end_time : datetime)
    : option (datetime * datetime) :=
  if eqb start_time end_time then None
  else
    let '(s, e) :=
      if gtb start_time end_time then (end_time, start_time)
      else (start_time, end_time) in
    if leb e first_ts || geb s last_ts then None
    else
      let s := max s first_ts in
      let e := min e last_ts in
      if geb s e then None else Some (s, e).

End Spec.

(** * Concrete inputs used by the examples *)

Module Examples.

Import Datetime Uvf2volume.

Definition at_minute (y mo d h mi : Z) : datetime :=
  mk_datetime y mo d h mi 0 0.

(** The scenario of the specification: 10.0 held for five minutes, then
    20.0 held for five minutes. *)
Definition scenario : list sample :=
  [ (at_minute 2000 1 1 0 0, 10%Q);
    (at_minute 2000 1 1 0 5, 20%Q);
    (at_minute 2000 1 1 0 10, 0%Q) ].

(** A series with two samples at 00:05. *)
Definition tied : list sample :=
  [ (at_minute 2000 1 1 0 0, 1%Q);
    (at_minute 2000 1 1 0 5, 2%Q);
    (at_minute 2000 1 1 0 5, 3%Q);
    (at_minute 2000 1 1 0 10, 0%Q) ].

(** The table of the specification's scenario. *)
Definition table_rows : list (Q * Q) :=
  [ (28 # 100, 25 # 100); (50 # 100, 39 # 100) ]%Q.


End Examples.

(** * The rest of the engine

    [datetime + timedelta], the gap filler [fill_missing_5min] and the
    vocabulary of the further properties. *)

(** ** [datetime + timedelta] in the Python standard library

    [OverflowError] is modelled by [None]. *)

Module DatetimeAdd.

Import Datetime.

Definition _DI400Y : Z := 146097.
Definition _DI100Y : Z := 36524.
Definition _DI4Y : Z := 1461.
Definition _MAXORDINAL : Z := 3652059.

(** [_ord2ymd(n)]: ordinal to (year, month, day); the [assert]
    statements of the library are left out. *)
Definition _ord2ymd (n : Z) : Z * Z * Z :=
  let n := n - 1 in
  let n400 := n / _DI400Y in
  let n := n mod _DI400Y in
  let year := n400 * 400 + 1 in
  let n100 := n / _DI100Y in
  let n := n mod _DI100Y in
  let n4 := n / _DI4Y in
  let n := n mod _DI4Y in
  let n1 := n / 365 in
  let n := n mod 365 in
  let year := year + (n100 * 100 + n4 * 4 + n1) in
  if (n1 =? 4) || (n100 =? 4) then (year - 1, 12, 31)
  else
    let leapyear := (n1 =? 3) && (negb (n4 =? 24) || (n100 =? 3)) in
    let month := Z.shiftr (n + 50) 5 in
    let preceding :=
      _DAYS_BEFORE_MONTH month
      + (if (2 <? month) && leapyear then 1 else 0) in
    let '(month, preceding) :=
      if n <? preceding then
        (month - 1,
         preceding
         - (_DAYS_IN_MONTH (month - 1)
            + (if (month - 1 =? 2) && leapyear then 1 else 0)))
      else (month, preceding) in
    (year, month, n - preceding + 1).

(** [timedelta(minutes=m)]. *)
Definition timedelta_minutes (m : Z) : timedelta := m * 60 * 1000000.

(** [d + td] ([datetime.__add__]): the timedelta made of the ordinal and
    the time fields of [d] is added to [td] and split again by [divmod];
    [None] stands for [OverflowError]. *)
Definition add (d : datetime) (td : timedelta) : option datetime :=
  let delta := to_us d + td in
  let days := delta / 86400000000 in
  let seconds := (delta mod 86400000000) / 1000000 in
  let microseconds := delta mod 1000000 in
  let hour := seconds / 3600 in
  let rem := seconds mod 3600 in
  let minute := rem / 60 in
  let second := rem mod 60 in
  if (0 <? days) && (days <=? _MAXORDINAL) then
    let '(y, m, dd) := _ord2ymd days in
    Some (mk_datetime y m dd hour minute second microseconds)
  else None.

End DatetimeAdd.

(** ** [fill_missing_5min] of Tools/uvf2volume/uvf2volume.py

    [Tools/uvf2volume_soll.py] carries the same function. *)

Module Uvf2volumeFill.

Import Datetime DatetimeAdd Uvf2volume.

(** Number of iterations that the [while next_expected < t] loop of
    [fill_missing_5min] cannot exceed (see [gap_fuel_enough] and
    [fill_gap_spec]). *)
Definition gap_fuel (next_expected t : datetime) : nat :=
  Z.to_nat ((to_us t - to_us next_expected) / timedelta_minutes 5 + 1).

(** The [while next_expected < t] loop; [None] is the OverflowError of
    [next_expected += timedelta(minutes=5)]. *)
Fixpoint fill_gap (fuel : nat) (next_expected t : datetime) (prev_q : Q)
    (filled : list sample) : option (list sample) :=
  match fuel with
  | O => Some filled
  | S fuel' =>
      if ltb next_expected t then
        let filled := filled ++ [(next_expected, prev_q)] in
        match add next_expected (timedelta_minutes 5) with
        | Some next_expected =>
            fill_gap fuel' next_expected t prev_q filled
        | None => None
        end
      else Some filled
  end.

(** The [for t, q in data[1:]] loop. *)
Fixpoint fill_loop (rest : list sample) (prev_t : datetime) (prev_q : Q)
    (filled : list sample) : option (list sample) :=
  match rest with
  | [] => Some filled
  | (t, q) :: rest' =>
      match add prev_t (timedelta_minutes 5) with
      | None => None
      | Some next_expected =>
          match
            fill_gap (gap_fuel next_expected t) next_expected t prev_q
              filled
          with
          | None => None
          | Some filled => fill_loop rest' t q (filled ++ [(t, q)])
          end
      end
  end.

Definition fill_missing_5min (data : list sample) : option (list sample) :=
  match data with
  | [] => Some []
  | first :: rest =>
      let '(prev_t, prev_q) := first in
      fill_loop rest prev_t prev_q [first]
  end.

End Uvf2volumeFill.

(** ** Further vocabulary *)

Module MoreSpec.

Import Datetime DatetimeAdd Uvf2volume Spec.


(** Calendar order of two dates. *)
Definition date_lt (d1 d2 : date_t) : Prop :=
  let '(y1, m1, x1) := d1 in
  let '(y2, m2, x2) := d2 in
  y1 < y2 \/ (y1 = y2 /\ (m1 < m2 \/ (m1 = m2 /\ x1 < x2))).

Definition date_le (d1 d2 : date_t) : Prop := date_lt d1 d2 \/ d1 = d2.

(** The value [q] is the value of a sample of [data] on day [d] inside
    [[s, e]]. *)
Definition sampled_on (data : list sample) (s e : datetime) (d : date_t)
    (q : Q) : Prop :=
  exists t, In (t, q) data /\ date t = d /\ in_closed s e t.

(** What [get_daily_extremes] returns from the state of its loop. *)
Definition finish (st : option (date_t * Q * Q) * list DayExtreme)
    : list DayExtreme :=
  match fst st with
  | Some (current_day, day_min, day_max) =>
      snd st ++ [mk_day_extreme current_day day_min day_max]
  | None => snd st
  end.

(** An entry whose minimum and maximum are values sampled on its day
    inside [[s, e]]. *)
Definition entry_ok (data : list sample) (s e : datetime)
    (r : DayExtreme) : Prop :=
  sampled_on data s e (ex_date r) (ex_min r) /\
  sampled_on data s e (ex_date r) (ex_max r) /\
  (ex_min r <= ex_max r)%Q.

(** Invariant of the scan of an ascending series: the emitted dates are
    in order, all before the open day, and no later sample is before the
    open day. *)
Definition scan_inv (st : option (date_t * Q * Q) * list DayExtreme)
    (rest : list sample) : Prop :=
  StronglySorted date_lt (map ex_date (snd st)) /\
  match fst st with
  | Some (cd, _, _) =>
      Forall (fun r => date_lt (ex_date r) cd) (snd st) /\
      Forall (fun x => date_le cd (date (fst x))) rest
  | None => snd st = []
  end.

(** Sum of the volumes of the yearly results. *)
Definition total_volume (rs : list YearVolumeResult) : Q :=
  fold_right (fun r acc => (volume_m3 r + acc)%Q) 0%Q rs.

(** The three regions of a query against a sorted table. *)
Inductive interp_region (xs ys : list Q) (x y : Q) : Prop :=
| region_below :
    (x <= nth 0 xs 0%Q)%Q -> y = nth 0 ys 0%Q -> interp_region xs ys x y
| region_above :
    (nth 0 xs 0%Q < x)%Q -> (last xs 0%Q <= x)%Q -> y = last ys 0%Q ->
    interp_region xs ys x y
| region_inside (r : nat) :
    (1 <= r < length xs)%nat ->
    (forall i, (i < r)%nat -> (nth i xs 0%Q < x)%Q) ->
    (x <= nth r xs 0%Q)%Q -> (x < last xs 0%Q)%Q ->
    y = (nth (r - 1) ys 0%Q
         + (x - nth (r - 1) xs 0%Q) / (nth r xs 0%Q - nth (r - 1) xs 0%Q)
           * (nth r ys 0%Q - nth (r - 1) ys 0%Q))%Q ->
    interp_region xs ys x y.

(** The month and day of the [n]-th day (from 0) of a year, as the tail
    of [_ord2ymd] computes them. *)
Definition month_day (leapyear : bool) (n : Z) : Z * Z :=
  let month := Z.shiftr (n + 50) 5 in
  let preceding :=
    _DAYS_BEFORE_MONTH month
    + (if (2 <? month) && leapyear then 1 else 0) in
  let '(month, preceding) :=
    if n <? preceding then
      (month - 1,
       preceding
       - (_DAYS_IN_MONTH (month - 1)
          + (if (month - 1 =? 2) && leapyear then 1 else 0)))
    else (month, preceding) in
  (month, n - preceding + 1).

(** What [month_day] has to satisfy: a month, a day of that month, and
    the right number of days before it. *)
Definition month_day_ok (leapyear : bool) (n : Z) : bool :=
  let '(m, d) := month_day leapyear n in
  (1 <=? m) && (m <=? 12) && (1 <=? d) &&
  (d <=? (if (m =? 2) && leapyear then 29 else _DAYS_IN_MONTH m)) &&
  (_DAYS_BEFORE_MONTH m + (if (2 <? m) && leapyear then 1 else 0) + d
   =? n + 1).

(** The first instant that [datetime] cannot represent, in microseconds:
    midnight after 9999-12-31. *)
Definition us_limit : Z := (_MAXORDINAL + 1) * 86400000000.

(** Five minutes, in microseconds. *)
Definition five_us : Z := 300000000.

(** The last instant to which five minutes can be added:
    9999-12-31 23:54:59.999999. *)
Definition latest_fillable : datetime :=
  mk_datetime 9999 12 31 23 54 59 999999.

Definition fillable (data : list sample) : Prop :=
  Forall (fun s => leb (fst s) latest_fillable = true) data.

(** Entries of value [q] at [u], [u] + 5 min, [u] + 10 min, ... *)
Fixpoint stepped (u : Z) (q : Q) (gap : list sample) : Prop :=
  match gap with
  | [] => True
  | s :: gap' =>
      valid (fst s) /\ to_us (fst s) = u /\ snd s = q /\
      stepped (u + five_us) q gap'
  end.

(** [gap] is what is inserted between the samples [(prev_t, prev_q)] and
    [(t, _)]: the five-minute steps after [prev_t] that are before
    [t]. *)
Definition gap_ok (prev_t : datetime) (prev_q : Q) (t : datetime)
    (gap : list sample) : Prop :=
  stepped (to_us prev_t + five_us) prev_q gap /\
  to_us t <= to_us prev_t + five_us * (Z.of_nat (length gap) + 1) /\
  (gap <> [] -> to_us prev_t + five_us * Z.of_nat (length gap) < to_us t).

(** [tail] is [rest] with the gaps after [prev] and after each of its
    samples filled. *)
Inductive filling : sample -> list sample -> list sample -> Prop :=
| filling_nil prev : filling prev [] []
| filling_cons prev_t prev_q t q rest gap tail :
    gap_ok prev_t prev_q t gap ->
    filling (t, q) rest tail ->
    filling (prev_t, prev_q) ((t, q) :: rest) (gap ++ (t, q) :: tail).

(** No timestamp is more than five minutes later than its
    predecessor. *)
Definition five_minute_steps (data : list sample) : Prop :=
  Sorted
    (fun s1 s2 => (total_seconds (sub (fst s2) (fst s1)) <= 300)%Q) data.

End MoreSpec.

(** ** Further concrete inputs *)

Module MoreExamples.

Import Datetime Uvf2volume.

(** Samples at 00:00, 00:17 and 00:20. *)
Definition gappy : list sample :=
  [ (Examples.at_minute 2000 1 1 0 0, 10%Q);
    (Examples.at_minute 2000 1 1 0 17, 20%Q);
    (Examples.at_minute 2000 1 1 0 20, 0%Q) ].

(** Two samples in the last five minutes of year 9999. *)
Definition last_minutes : list sample :=
  [ (Examples.at_minute 9999 12 31 23 56, 1%Q);
    (Examples.at_minute 9999 12 31 23 58, 2%Q) ].

End MoreExamples.

(** * Facts about float comparisons *)

Module FloatFacts.

Lemma Qltb_lt a b : Qltb a b = true <-> (a < b)%Q.
Proof.
  unfold Qltb. rewrite negb_true_iff. split.
  - intros H. apply Qnot_le_lt. intros Hle.
    apply Qle_bool_iff in Hle. congruence.
  - intros H. destruct (Qle_bool b a) eqn:E; [| reflexivity].
    apply Qle_bool_iff in E. lra.
Qed.

Lemma Qltb_ge a b : Qltb a b = false <-> (b <= a)%Q.
Proof.
  unfold Qltb. rewrite negb_false_iff. apply Qle_bool_iff.
Qed.

Lemma Qle_bool_false a b : Qle_bool a b = false <-> (b < a)%Q.
Proof.
  split.
  - intros H. apply Qnot_le_lt. intros Hle.
    apply Qle_bool_iff in Hle. congruence.
  - intros H. destruct (Qle_bool a b) eqn:E; [| reflexivity].
    apply Qle_bool_iff in E. lra.
Qed.

End FloatFacts.

(** * Facts about the datetime model *)

Module DatetimeFacts.

Import Datetime Spec.

Lemma days_before_year_succ y :
  _days_before_year (y + 1)
  = _days_before_year y + 365 + (if _is_leap y then 1 else 0).
Proof.
  unfold _days_before_year, _is_leap. cbv zeta.
  replace (y + 1 - 1) with y by lia.
  destruct (Z.eqb_spec (y mod 4) 0), (Z.eqb_spec (y mod 100) 0),
    (Z.eqb_spec (y mod 400) 0); cbn [andb orb negb];
    Z.div_mod_to_equations; lia.
Qed.

Lemma days_before_year_add y k :
  0 <= k -> _days_before_year y + 365 * k <= _days_before_year (y + k).
Proof.
  intros Hk. pattern k. apply natlike_ind; [ | | exact Hk]; cbv beta.
  - replace (y + 0) with y by lia. lia.
  - intros n Hn IH. replace (y + Z.succ n) with (y + n + 1) by lia.
    rewrite days_before_year_succ. destruct (_is_leap (y + n)); lia.
Qed.

Lemma days_before_year_mono y y' :
  y <= y' -> _days_before_year y + 365 * (y' - y) <= _days_before_year y'.
Proof.
  intros H. replace y' with (y + (y' - y)) at 2 by lia.
  apply days_before_year_add. lia.
Qed.

Lemma month_cases m :
  1 <= m <= 12 ->
  m = 1 \/ m = 2 \/ m = 3 \/ m = 4 \/ m = 5 \/ m = 6 \/
  m = 7 \/ m = 8 \/ m = 9 \/ m = 10 \/ m = 11 \/ m = 12.
Proof. lia. Qed.

Ltac split_month H :=
  apply month_cases in H;
  repeat (destruct H as [H | H]); subst.

(** A valid day-of-year offset stays within the year. *)
Lemma day_of_year_bounds y m d :
  1 <= m <= 12 -> 1 <= d <= _days_in_month y m ->
  1 <= _days_before_month y m + d
    <= 365 + (if _is_leap y then 1 else 0).
Proof.
  intros Hm. unfold _days_in_month, _days_before_month.
  split_month Hm; destruct (_is_leap y); cbn -[Z.add]; lia.
Qed.

Lemma days_before_month_mono y m m' d :
  1 <= m <= 12 -> 1 <= m' <= 12 -> m < m' ->
  1 <= d <= _days_in_month y m ->
  _days_before_month y m + d <= _days_before_month y m'.
Proof.
  intros Hm Hm'. unfold _days_in_month, _days_before_month.
  split_month Hm; split_month Hm'; intros; try lia;
    destruct (_is_leap y); cbn -[Z.add] in *; lia.
Qed.

Lemma valid_bounds d :
  valid d ->
  (1 <= year d <= 9999) /\ (1 <= month d <= 12) /\
  (1 <= day d <= _days_in_month (year d) (month d)) /\
  (0 <= hour d <= 23) /\ (0 <= minute d <= 59) /\
  (0 <= second d <= 59) /\ (0 <= microsecond d <= 999999).
Proof.
  unfold valid, check_fields. intros H.
  repeat (apply andb_prop in H; destruct H as [H ?]).
  repeat match goal with
         | Hb : (_ <=? _) = true |- _ => apply Z.leb_le in Hb
         end.
  lia.
Qed.

Lemma toordinal_year_lt a b :
  valid a -> valid b -> year a < year b -> toordinal a < toordinal b.
Proof.
  intros Ha Hb Hlt.
  destruct (valid_bounds a Ha) as (_ & Hma & Hda & _).
  destruct (valid_bounds b Hb) as (_ & Hmb & Hdb & _).
  pose proof (day_of_year_bounds _ _ _ Hma Hda) as Ba.
  pose proof (day_of_year_bounds _ _ _ Hmb Hdb) as Bb.
  pose proof (days_before_year_succ (year a)) as Hs.
  pose proof (days_before_year_mono (year a + 1) (year b)) as Hm.
  unfold toordinal, _ymd2ord. lia.
Qed.

Lemma toordinal_month_lt a b :
  valid a -> valid b -> year a = year b -> month a < month b ->
  toordinal a < toordinal b.
Proof.
  intros Ha Hb Hy Hlt.
  destruct (valid_bounds a Ha) as (_ & Hma & Hda & _).
  destruct (valid_bounds b Hb) as (_ & Hmb & Hdb & _).
  pose proof (days_before_month_mono (year a) _ _ _ Hma Hmb Hlt Hda) as Hm.
  unfold toordinal, _ymd2ord. rewrite <- Hy. lia.
Qed.

Lemma toordinal_same_month a b :
  year a = year b -> month a = month b ->
  toordinal a - toordinal b = day a - day b.
Proof.
  intros Hy Hm. unfold toordinal, _ymd2ord. rewrite Hy, Hm. lia.
Qed.

(** On constructed datetimes the field-wise comparison is the comparison
    of the instants. *)
Lemma cmp_to_us a b :
  valid a -> valid b -> cmp a b = (to_us a ?= to_us b).
Proof.
  intros Ha Hb.
  pose proof (valid_bounds a Ha) as (_ & _ & _ & Hh & Hmi & Hs & Hu).
  pose proof (valid_bounds b Hb) as (_ & _ & _ & Hh' & Hmi' & Hs' & Hu').
  pose proof (toordinal_year_lt a b Ha Hb) as Y1.
  pose proof (toordinal_year_lt b a Hb Ha) as Y2.
  pose proof (toordinal_month_lt a b Ha Hb) as M1.
  pose proof (toordinal_month_lt b a Hb Ha) as M2.
  pose proof (toordinal_same_month a b) as D.
  unfold cmp, lex, to_us.
  repeat match goal with
         | |- context [?x ?= ?y] =>
             lazymatch x with
             | context [toordinal] => fail
             | _ => destruct (Z.compare_spec x y)
             end
         end;
    symmetry;
    first [ apply Z.compare_eq_iff | apply Z.compare_lt_iff
          | apply Z.compare_gt_iff ];
    lia.
Qed.

Section Comparisons.

Variables a b : datetime.
Hypothesis Ha : valid a.
Hypothesis Hb : valid b.

Lemma ltb_to_us : ltb a b = (to_us a <? to_us b).
Proof. unfold ltb, Z.ltb. now rewrite cmp_to_us. Qed.

Lemma leb_to_us : leb a b = (to_us a <=? to_us b).
Proof. unfold leb, Z.leb. now rewrite cmp_to_us. Qed.

Lemma eqb_to_us : eqb a b = (to_us a =? to_us b).
Proof. unfold eqb. rewrite Z.eqb_compare. now rewrite cmp_to_us. Qed.

End Comparisons.

Lemma gtb_to_us a b : valid a -> valid b -> gtb a b = (to_us b <? to_us a).
Proof. intros. unfold gtb. now apply ltb_to_us. Qed.

Lemma geb_to_us a b : valid a -> valid b -> geb a b = (to_us b <=? to_us a).
Proof. intros. unfold geb. now apply leb_to_us. Qed.

Lemma sub_to_us a b : sub a b = to_us a - to_us b.
Proof. unfold sub, to_us. lia. Qed.

(** [cmp] is an equality test on the fields. *)
Lemma eqb_eq a b : eqb a b = true <-> a = b.
Proof.
  unfold eqb, cmp, lex. destruct a, b; cbn.
  split.
  - repeat match goal with
           | |- context [?x ?= ?y] => destruct (Z.compare_spec x y)
           end; try discriminate; intros _; subst; reflexivity.
  - intros E. injection E as -> -> -> -> -> -> ->.
    now rewrite !Z.compare_refl.
Qed.

End DatetimeFacts.

(** * Facts about the volume integration *)

Module VolumeFacts.

Import Datetime Uvf2volume Spec DatetimeFacts.

Lemma total_seconds_add (x y : Z) :
  (total_seconds (x + y)%Z == total_seconds x + total_seconds y)%Q.
Proof. unfold total_seconds, Qeq, Qplus. cbn. lia. Qed.

Lemma total_seconds_nonneg (x : Z) : 0 <= x -> (0 <= total_seconds x)%Q.
Proof. intros H. unfold total_seconds, Qle. cbn. lia. Qed.

Lemma total_seconds_0 : (total_seconds 0%Z == 0)%Q.
Proof. reflexivity. Qed.

(** Turn the boolean datetime tests of the context into integer facts. *)
Ltac dt_to_Z :=
  repeat first
    [ rewrite ltb_to_us in * by assumption
    | rewrite leb_to_us in * by assumption
    | rewrite gtb_to_us in * by assumption
    | rewrite geb_to_us in * by assumption
    | rewrite eqb_to_us in * by assumption ];
  repeat match goal with
    | H : (_ <? _) = true |- _ => apply Z.ltb_lt in H
    | H : (_ <? _) = false |- _ => apply Z.ltb_ge in H
    | H : (_ <=? _) = true |- _ => apply Z.leb_le in H
    | H : (_ <=? _) = false |- _ => apply Z.leb_gt in H
    | H : (_ =? _) = true |- _ => apply Z.eqb_eq in H
    | H : (_ =? _) = false |- _ => apply Z.eqb_neq in H
    end.

(** Decide one boolean datetime test from integer facts of the context. *)
Ltac dt_decide :=
  dt_to_Z;
  first
    [ apply Z.ltb_lt | apply Z.ltb_ge | apply Z.leb_le | apply Z.leb_gt
    | apply Z.eqb_eq | apply Z.eqb_neq ];
  lia.

(** *** The two loops *)

Lemma find_q_at_start_inv data start_time prev r :
  find_q_at_start data start_time prev = Some r ->
  prev = Some r \/ (In r data /\ gtb (fst r) start_time = false).
Proof.
  revert prev. induction data as [| [t q] rest IH]; intros prev H; cbn in H.
  - now left.
  - destruct (gtb t start_time) eqn:E.
    + now left.
    + apply IH in H. destruct H as [H | [H1 H2]].
      * injection H as <-. right. split; [now left | exact E].
      * right. split; [now right | exact H2].
Qed.

Lemma accumulate_nonneg data end_time :
  valid end_time -> valid_series data -> nonneg_series data ->
  forall prev_time prev_q total,
    valid prev_time -> to_us prev_time < to_us end_time ->
    (0 <= prev_q)%Q -> (0 <= total)%Q ->
    (0 <= accumulate data end_time prev_time prev_q total)%Q.
Proof.
  intros He Hv Hq.
  induction data as [| [t q] rest IH]; intros pt pq total Hpt Hlt Hpq Htot;
    cbn [accumulate].
  - exact Htot.
  - inversion Hv as [| ? ? Ht Hv']; subst. inversion Hq as [| ? ? Hq0 Hq']; subst.
    cbn [fst snd] in *.
    destruct (leb t pt) eqn:E1; [now apply IH |].
    destruct (geb t end_time) eqn:E2; dt_to_Z.
    + assert (Hs : (0 <= total_seconds (sub end_time pt))%Q)
        by (apply total_seconds_nonneg; rewrite sub_to_us; lia).
      nra.
    + assert (Hs : (0 <= total_seconds (sub t pt))%Q)
        by (apply total_seconds_nonneg; rewrite sub_to_us; lia).
      apply IH; try assumption. nra.
Qed.

Lemma last_Forall {A : Type} (P : A -> Prop) (l : list A) (d : A) :
  Forall P l -> P d -> P (last l d).
Proof.
  induction 1 as [| x l Hx Hl IH]; intros Hd; [exact Hd |].
  destruct l; [exact Hx | now apply IH].
Qed.

(** *** Totality and sign of the volume *)

Lemma scenario_valid : valid_series Examples.scenario.
Proof. repeat constructor. Qed.

Lemma scenario_nonneg : nonneg_series Examples.scenario.
Proof. repeat constructor; unfold Qle; cbn; lia. Qed.

Lemma scenario_strictly_ascending : strictly_ascending Examples.scenario.
Proof. repeat constructor. Qed.

Example scenario_volume :
  (calculate_volume Examples.scenario
     (Examples.at_minute 2000 1 1 0 0) (Examples.at_minute 2000 1 1 0 10)
   == 9000)%Q.
Proof. vm_compute. reflexivity. Qed.

(** C10: on the empty series both computations return without an
    exception: the volume is 0 and the list of daily extremes is empty,
    for every interval. *)
Theorem empty_series_total (start_time end_time : datetime) :
  calculate_volume [] start_time end_time = 0%Q /\
  get_daily_extremes [] start_time end_time = [].
Proof.
  split; [reflexivity |].
  unfold get_daily_extremes. now destruct (gtb start_time end_time).
Qed.

(** C9: on a non-empty series a zero-width interval, and an interval
    that after the swap ends at or before the first timestamp or starts
    at or after the last one, give volume 0; no exception is involved. *)
Theorem degenerate_or_disjoint_is_zero (first : sample)
    (rest : list sample) (start_time end_time : datetime) :
  let data := first :: rest in
  let s := if gtb start_time end_time then end_time else start_time in
  let e := if gtb start_time end_time then start_time else end_time in
  start_time = end_time \/
  leb e (fst first) = true \/
  geb s (fst (last data first)) = true ->
  calculate_volume data start_time end_time = 0%Q.
Proof.
  intros data s e H. subst data s e. unfold calculate_volume.
  destruct (eqb start_time end_time) eqn:Eq; [reflexivity |].
  destruct H as [H | H].
  - apply eqb_eq in H. congruence.
  - destruct (gtb start_time end_time);
      destruct H as [-> | H]; [reflexivity | | reflexivity |];
      rewrite H; now destruct (leb _ _).
Qed.

Lemma degenerate_or_disjoint_is_zero_witness :
  calculate_volume Examples.scenario
    (Examples.at_minute 1999 6 1 0 0) (Examples.at_minute 1999 1 1 0 0)
  = 0%Q.
Proof.
  apply (degenerate_or_disjoint_is_zero
           (Examples.at_minute 2000 1 1 0 0, 10%Q)
           [ (Examples.at_minute 2000 1 1 0 5, 20%Q);
             (Examples.at_minute 2000 1 1 0 10, 0%Q) ]
           (Examples.at_minute 1999 6 1 0 0)
           (Examples.at_minute 1999 1 1 0 0)).
  right. left. reflexivity.
Defined.

(** C8: on a series of non-negative values the volume is non-negative
    for every pair of instants, and it is exactly 0 whenever the interval
    normalizes to Empty. *)
Theorem calculate_volume_nonneg (data : list sample)
    (start_time end_time : datetime) :
  valid_series data -> valid start_time -> valid end_time ->
  nonneg_series data ->
  (0 <= calculate_volume data start_time end_time)%Q /\
  (forall first rest,
      data = first :: rest ->
      normalize (fst first) (fst (last data first)) start_time end_time
      = None ->
      calculate_volume data start_time end_time = 0%Q).
Proof.
  intros Hv Hs He Hq. split.
  - unfold calculate_volume.
    destruct data as [| first rest]; [apply Qle_refl |].
    assert (Hf : valid (fst first)) by now inversion Hv.
    assert (Hl : valid (fst (last (first :: rest) first)))
      by (apply (last_Forall (fun s => valid (fst s))); assumption).
    set (data := first :: rest) in *.
    destruct (eqb start_time end_time); [apply Qle_refl |].
    destruct (gtb start_time end_time);
      repeat match goal with
        | |- (0 <= (if ?c then _ else _))%Q =>
            destruct c eqn:?; [apply Qle_refl |]
        end;
      match goal with
      | |- context [find_q_at_start data ?s None] =>
          destruct (find_q_at_start data s None) as [[pt pq] |] eqn:Ef;
          [| apply Qle_refl]
      end;
      apply find_q_at_start_inv in Ef;
      destruct Ef as [Ef | [Hin Hgt]]; try discriminate;
      cbn [fst] in Hgt;
      pose proof (proj1 (Forall_forall _ _) Hv _ Hin) as Hpt;
      pose proof (proj1 (Forall_forall _ _) Hq _ Hin) as Hpq;
      cbn [fst snd] in Hpt, Hpq;
      (apply accumulate_nonneg; try assumption;
       [ repeat match goal with
           | |- valid (if ?c then _ else _) => destruct c
           end; assumption
       | repeat match goal with
           | |- valid (if ?c then _ else _) => destruct c
           end; assumption
       | repeat match goal with
           | H : context [if ?c then _ else _] |- _ => destruct c eqn:?
           | |- context [if ?c then _ else _] => destruct c eqn:?
           end; dt_to_Z; lia
       | apply Qle_refl ]).
  - intros first rest -> Hn. unfold normalize in Hn.
    unfold calculate_volume, max, min in *.
    destruct (eqb start_time end_time); [reflexivity |].
    destruct (gtb start_time end_time);
      repeat match goal with
        | |- (if ?c then _ else _) = _ =>
            destruct c eqn:?; [reflexivity |]
        end;
      cbn [orb] in Hn;
      unfold gtb in *;
      repeat match goal with
        | H : ?c = _, Hn : context [?c] |- _ => rewrite H in Hn
        end;
      discriminate.
Qed.

Lemma calculate_volume_nonneg_witness :
  (0 <= calculate_volume Examples.scenario
          (Examples.at_minute 2000 1 1 0 2)
          (Examples.at_minute 2000 1 1 0 7))%Q /\
  (forall first rest,
      Examples.scenario = first :: rest ->
      normalize (fst first) (fst (last Examples.scenario first))
        (Examples.at_minute 2000 1 1 0 2) (Examples.at_minute 2000 1 1 0 7)
      = None ->
      calculate_volume Examples.scenario
        (Examples.at_minute 2000 1 1 0 2) (Examples.at_minute 2000 1 1 0 7)
      = 0%Q).
Proof.
  apply (calculate_volume_nonneg Examples.scenario
           (Examples.at_minute 2000 1 1 0 2)
           (Examples.at_minute 2000 1 1 0 7)).
  - exact scenario_valid.
  - reflexivity.
  - reflexivity.
  - exact scenario_nonneg.
Defined.

(** *** The step integral *)

Lemma ltb_leb a b : ltb a b = true -> leb a b = true.
Proof. unfold ltb, leb. now destruct (cmp a b). Qed.

Lemma strictly_ascending_ascending data :
  strictly_ascending data -> ascending data.
Proof.
  unfold strictly_ascending, ascending.
  induction 1 as [| x l Hs IH Hh]; constructor; [exact IH |].
  destruct Hh; constructor. now apply ltb_leb.
Qed.

(** In an ascending series every timestamp is at least the first one. *)
Lemma ascending_lower_bound data :
  valid_series data -> ascending data ->
  forall s rest x, data = s :: rest -> x <= to_us (fst s) ->
    Forall (fun s' => x <= to_us (fst s')) data.
Proof.
  intros Hv Hs. induction Hs as [| y l Hs IH Hh]; intros s rest x E Hx.
  - discriminate.
  - injection E as -> ->. constructor; [exact Hx |].
    inversion Hv as [| ? ? Hy Hv']; subst.
    destruct rest as [| z rest']; [constructor |].
    apply (IH Hv' z rest' x eq_refl).
    inversion Hh as [| ? ? Hle]; subst.
    inversion Hv' as [| ? ? Hz _]; subst.
    dt_to_Z. lia.
Qed.

Lemma overlap_zero_after t0 t1 a b :
  to_us b <= to_us t0 -> overlap t0 t1 a b = total_seconds 0%Z.
Proof. intros H. unfold overlap. f_equal. lia. Qed.

Lemma overlap_zero_before t0 t1 a b :
  to_us t1 <= to_us a -> overlap t0 t1 a b = total_seconds 0%Z.
Proof. intros H. unfold overlap. f_equal. lia. Qed.

Lemma overlap_inside t0 t1 a b :
  to_us a <= to_us t0 -> to_us t0 <= to_us t1 -> to_us t1 <= to_us b ->
  overlap t0 t1 a b = total_seconds (sub t1 t0).
Proof. intros. unfold overlap. rewrite sub_to_us. f_equal. lia. Qed.

Lemma overlap_add t0 t1 a b c :
  to_us t0 <= to_us t1 -> to_us a <= to_us b -> to_us b <= to_us c ->
  (overlap t0 t1 a c == overlap t0 t1 a b + overlap t0 t1 b c)%Q.
Proof.
  intros. unfold overlap. rewrite <- total_seconds_add.
  match goal with
  | |- (total_seconds ?x == total_seconds ?y)%Q =>
      replace x with y by lia
  end.
  reflexivity.
Qed.

Lemma step_integral_cons2 t0 q0 t1 q1 l a b :
  step_integral ((t0, q0) :: (t1, q1) :: l) a b
  = (q0 * overlap t0 t1 a b + step_integral ((t1, q1) :: l) a b)%Q.
Proof. reflexivity. Qed.

Lemma step_sum_cons2 t0 q0 t1 q1 l :
  step_sum ((t0, q0) :: (t1, q1) :: l)
  = (q0 * total_seconds (sub t1 t0) + step_sum ((t1, q1) :: l))%Q.
Proof. reflexivity. Qed.

Lemma step_integral_zero_after data a b :
  Forall (fun s => to_us b <= to_us (fst s)) data ->
  (step_integral data a b == 0)%Q.
Proof.
  induction 1 as [| [t0 q0] l Ht Hl IH]; [reflexivity |].
  destruct l as [| [t1 q1] l']; [reflexivity |].
  rewrite step_integral_cons2. cbn [fst] in Ht.
  rewrite IH, (overlap_zero_after _ _ _ _ Ht), total_seconds_0. ring.
Qed.

Lemma step_integral_start_irrelevant data a a' b x :
  to_us a <= x -> to_us a' <= x ->
  Forall (fun s => x <= to_us (fst s)) data ->
  (step_integral data a b == step_integral data a' b)%Q.
Proof.
  intros Ha Ha'.
  induction 1 as [| [t0 q0] l Ht Hl IH]; [reflexivity |].
  destruct l as [| [t1 q1] l']; [reflexivity |].
  rewrite !step_integral_cons2. cbn [fst] in Ht. rewrite IH.
  unfold overlap.
  replace (Z.max (to_us t0) (to_us a)) with (Z.max (to_us t0) (to_us a'))
    by lia.
  reflexivity.
Qed.

Lemma step_integral_add data a b c :
  valid_series data -> ascending data ->
  to_us a <= to_us b -> to_us b <= to_us c ->
  (step_integral data a c
   == step_integral data a b + step_integral data b c)%Q.
Proof.
  intros Hv Hs Hab Hbc.
  induction Hs as [| [t0 q0] l Hs IH Hh]; [reflexivity |].
  destruct l as [| [t1 q1] l']; [reflexivity |].
  inversion Hv as [| ? ? Ht0 Hv']; subst.
  inversion Hv' as [| ? ? Ht1 _]; subst.
  inversion Hh as [| ? ? Hle]; subst. cbn [fst] in *.
  dt_to_Z.
  rewrite !step_integral_cons2, (IH Hv').
  rewrite (overlap_add t0 t1 a b c) by assumption. ring.
Qed.

Lemma step_integral_full data a b :
  valid_series data -> ascending data ->
  Forall (fun s => to_us a <= to_us (fst s) <= to_us b) data ->
  (step_integral data a b == step_sum data)%Q.
Proof.
  intros Hv Hs Hb.
  induction Hs as [| [t0 q0] l Hs IH Hh]; [reflexivity |].
  destruct l as [| [t1 q1] l']; [reflexivity |].
  inversion Hv as [| ? ? Ht0 Hv']; subst.
  inversion Hv' as [| ? ? Ht1 _]; subst.
  inversion Hb as [| ? ? Hb0 Hb']; subst.
  inversion Hb' as [| ? ? Hb1 _]; subst.
  inversion Hh as [| ? ? Hle]; subst. cbn [fst] in *.
  dt_to_Z.
  rewrite step_integral_cons2, step_sum_cons2, (IH Hv' Hb').
  rewrite overlap_inside by lia. reflexivity.
Qed.

(** *** The loops compute the step integral *)

(** Equal instants are equal datetimes. *)
Lemma to_us_inj a b : valid a -> valid b -> to_us a = to_us b -> a = b.
Proof.
  intros Ha Hb H. apply eqb_eq. rewrite eqb_to_us by assumption.
  now apply Z.eqb_eq.
Qed.

(** The walk from [prev_time], which lies between the held sample and
    the next one, adds the integral of the remaining steps. *)
Lemma accumulate_walk end_time l :
  valid end_time ->
  forall t0 q0 prev_time total,
    valid_series ((t0, q0) :: l) -> strictly_ascending ((t0, q0) :: l) ->
    valid prev_time ->
    to_us t0 <= to_us prev_time -> to_us prev_time < to_us end_time ->
    (forall s rest, l = s :: rest -> to_us prev_time < to_us (fst s)) ->
    (accumulate l end_time prev_time q0 total
     == total + step_integral ((t0, q0) :: l) prev_time end_time)%Q.
Proof.
  intros He. induction l as [| [t1 q1] l' IH];
    intros t0 q0 pt total Hv Hs Hpt Hle Hlt Hhd.
  - cbn. ring.
  - inversion Hv as [| ? ? Ht0 Hv']; subst.
    inversion Hv' as [| ? ? Ht1 Hv'']; subst. cbn [fst] in *.
    apply Sorted_inv in Hs. destruct Hs as [Hs' _].
    specialize (Hhd _ _ eq_refl). cbn [fst] in Hhd.
    rewrite step_integral_cons2. cbn [accumulate].
    destruct (leb t1 pt) eqn:E1; [dt_to_Z; lia |].
    destruct (geb t1 end_time) eqn:E2; dt_to_Z.
    + rewrite (step_integral_zero_after ((t1, q1) :: l')).
      * unfold overlap. rewrite sub_to_us.
        replace (Z.max 0 (Z.min (to_us t1) (to_us end_time)
                          - Z.max (to_us t0) (to_us pt)))
          with (to_us end_time - to_us pt) by lia.
        ring.
      * apply (ascending_lower_bound _ Hv'
                 (strictly_ascending_ascending _ Hs') (t1, q1) l');
          [reflexivity | exact E2].
    + rewrite (IH t1 q1 t1); try assumption; try lia.
      * rewrite (step_integral_start_irrelevant _ t1 pt end_time (to_us t1));
          try lia.
        -- unfold overlap. rewrite sub_to_us.
           replace (Z.max 0 (Z.min (to_us t1) (to_us end_time)
                             - Z.max (to_us t0) (to_us pt)))
             with (to_us t1 - to_us pt) by lia.
           ring.
        -- apply (ascending_lower_bound _ Hv'
                    (strictly_ascending_ascending _ Hs') (t1, q1) l');
             [reflexivity | cbn; lia].
      * intros [t2 q2] rest ->.
        apply Sorted_inv in Hs'. destruct Hs' as [_ Hh].
        inversion Hh as [| ? ? Hlt12]; subst.
        inversion Hv'' as [| ? ? Ht2 _]; subst. cbn [fst] in *.
        dt_to_Z. exact Hlt12.
Qed.

(** The first loop stops at the last sample at or before [start_time];
    the second loop, started there, skips what comes before and adds the
    integral. *)
Lemma find_then_accumulate start_time end_time l :
  valid start_time -> valid end_time ->
  to_us start_time < to_us end_time ->
  forall tp qp total,
    valid_series ((tp, qp) :: l) -> strictly_ascending ((tp, qp) :: l) ->
    to_us tp <= to_us start_time ->
    exists ta qa,
      find_q_at_start l start_time (Some (tp, qp)) = Some (ta, qa) /\
      valid ta /\ to_us ta <= to_us start_time /\
      (accumulate l end_time start_time qa total
       == total + step_integral ((tp, qp) :: l) start_time end_time)%Q.
Proof.
  intros Ha Hb Hab. induction l as [| [t q] l' IH];
    intros tp qp total Hv Hs Hle.
  - exists tp, qp. inversion Hv; subst. cbn. repeat split; try easy. ring.
  - inversion Hv as [| ? ? Htp Hv']; subst.
    inversion Hv' as [| ? ? Ht Hv'']; subst. cbn [fst] in *.
    cbn [find_q_at_start].
    destruct (gtb t start_time) eqn:E; dt_to_Z.
    + exists tp, qp. repeat split; try assumption.
      apply accumulate_walk; try assumption.
      intros s rest Es. injection Es as <- <-. exact E.
    + pose proof Hs as Hs0.
      apply Sorted_inv in Hs. destruct Hs as [Hs' _].
      destruct (IH t q total Hv' Hs' E) as (ta & qa & Hf & Hta & Hle' & Hacc).
      exists ta, qa. repeat split; try assumption.
      cbn [accumulate].
      replace (leb t start_time) with true by (symmetry; dt_decide).
      rewrite Hacc, step_integral_cons2.
      rewrite (overlap_zero_before tp t) by exact E.
      rewrite total_seconds_0. ring.
Qed.

(** Inside the span of a series without repeated timestamps the code
    computes the step integral. *)
Lemma calculate_volume_in_span first rest a b :
  let data := first :: rest in
  valid_series data -> strictly_ascending data ->
  valid a -> valid b ->
  to_us (fst first) <= to_us a -> to_us a < to_us b ->
  to_us b <= to_us (fst (last data first)) ->
  (calculate_volume data a b == step_integral data a b)%Q.
Proof.
  intros data Hv Hs Ha Hb Hfa Hab Hbl. subst data.
  assert (Hf : valid (fst first)) by now inversion Hv.
  assert (Hl : valid (fst (last (first :: rest) first)))
    by (apply (last_Forall (fun s => valid (fst s))); assumption).
  unfold calculate_volume.
  set (data_end := fst (last (first :: rest) first)) in *.
  destruct first as [tf qf]. cbn [fst] in *.
  replace (eqb a b) with false by (symmetry; dt_decide).
  replace (gtb a b) with false by (symmetry; dt_decide).
  replace (leb b tf) with false by (symmetry; dt_decide).
  replace (geb a data_end) with false by (symmetry; dt_decide).
  replace (ltb a tf) with false by (symmetry; dt_decide).
  replace (gtb b data_end) with false by (symmetry; dt_decide).
  replace (geb a b) with false by (symmetry; dt_decide).
  cbn [find_q_at_start].
  replace (gtb tf a) with false by (symmetry; dt_decide).
  destruct (find_then_accumulate a b rest Ha Hb Hab tf qf 0%Q Hv Hs Hfa)
    as (ta & qa & Hfind & Hta & Hle & Hacc).
  rewrite Hfind.
  replace (if ltb ta a then a else ta) with a.
  - cbn [accumulate].
    replace (leb tf a) with true by (symmetry; dt_decide).
    rewrite Hacc. apply Qplus_0_l.
  - destruct (ltb ta a) eqn:E; [reflexivity |]. dt_to_Z.
    apply to_us_inj; try assumption. lia.
Qed.

(** In an ascending series every timestamp is at most the last one. *)
Lemma ascending_last_bound data :
  valid_series data -> ascending data ->
  forall d,
    Forall (fun s => to_us (fst s) <= to_us (fst (last data d))) data.
Proof.
  intros Hv Hs. induction Hs as [| x l Hs IH Hh]; intros d; [constructor |].
  inversion Hv as [| ? ? Hx Hv']; subst.
  destruct l as [| y l'].
  - cbn. constructor; [lia | constructor].
  - change (last (x :: y :: l') d) with (last (y :: l') d).
    specialize (IH Hv' d). constructor; [| exact IH].
    inversion IH as [| ? ? Hy _]; subst.
    inversion Hh as [| ? ? Hle]; subst.
    inversion Hv' as [| ? ? Hvy _]; subst.
    dt_to_Z. exact (Z.le_trans _ _ _ Hle Hy).
Qed.

Lemma strictly_ascending_first_lt_last first y rest :
  let data := first :: y :: rest in
  valid_series data -> strictly_ascending data ->
  to_us (fst first) < to_us (fst (last data first)).
Proof.
  intros data Hv Hs. subst data.
  inversion Hv as [| ? ? Hx Hv']; subst.
  inversion Hv' as [| ? ? Hy _]; subst.
  apply Sorted_inv in Hs. destruct Hs as [Hs' Hh].
  inversion Hh as [| ? ? Hlt]; subst.
  pose proof (ascending_last_bound _ Hv'
                (strictly_ascending_ascending _ Hs') first) as Hb.
  inversion Hb as [| ? ? Hyl _]; subst.
  change (last (first :: y :: rest) first) with (last (y :: rest) first).
  dt_to_Z. exact (Z.lt_le_trans _ _ _ Hlt Hyl).
Qed.

(** C2: on the series [tied], two samples at 00:05, the volume over the
    full span is 900 where the sum over the consecutive pairs is 1200.
    The walk skips the second sample at 00:05 and holds the value 2 of
    the first one up to 00:10, while the anchor loop of the same function
    takes the second one, of value 3, for an interval that starts at
    00:05. *)
Lemma tied_full_span_volume :
  ascending Examples.tied /\
  (calculate_volume Examples.tied
     (Examples.at_minute 2000 1 1 0 0) (Examples.at_minute 2000 1 1 0 10)
   == 900)%Q /\
  (step_sum Examples.tied == 1200)%Q /\
  find_q_at_start Examples.tied (Examples.at_minute 2000 1 1 0 5) None
  = Some (Examples.at_minute 2000 1 1 0 5, 3%Q).
Proof.
  split; [repeat constructor |]. repeat split; vm_compute; reflexivity.
Qed.

(** Away from repeated timestamps the two loops agree: on a non-empty
    series whose timestamps are strictly increasing, the volume over the
    full span, from the first to the last timestamp, is the sum of
    [value[i] * (t[i+1] - t[i]).total_seconds()] over the consecutive
    pairs. *)
Theorem full_span_is_step_sum (first : sample) (rest : list sample) :
  let data := first :: rest in
  valid_series data -> strictly_ascending data ->
  (calculate_volume data (fst first) (fst (last data first))
   == step_sum data)%Q.
Proof.
  intros data Hv Hs. subst data. destruct rest as [| y rest].
  - destruct first as [t q]. cbn.
    replace (eqb t t) with true by (symmetry; now apply eqb_eq).
    reflexivity.
  - assert (Hf : valid (fst first)) by now inversion Hv.
    assert (Hl : valid (fst (last (first :: y :: rest) first)))
      by (apply (last_Forall (fun s => valid (fst s))); assumption).
    pose proof (strictly_ascending_first_lt_last _ _ _ Hv Hs) as Hlt.
    rewrite calculate_volume_in_span; try assumption; try lia.
    apply step_integral_full; try assumption.
    + now apply strictly_ascending_ascending.
    + pose proof (ascending_lower_bound _ Hv
                    (strictly_ascending_ascending _ Hs) first (y :: rest)
                    (to_us (fst first)) eq_refl (Z.le_refl _)) as Hlo.
      pose proof (ascending_last_bound _ Hv
                    (strictly_ascending_ascending _ Hs) first) as Hhi.
      rewrite Forall_forall in *. intros s Hin. split; auto.
Qed.

Lemma full_span_is_step_sum_witness :
  (calculate_volume Examples.scenario
     (Examples.at_minute 2000 1 1 0 0) (Examples.at_minute 2000 1 1 0 10)
   == step_sum Examples.scenario)%Q.
Proof.
  apply (full_span_is_step_sum
           (Examples.at_minute 2000 1 1 0 0, 10%Q)
           [ (Examples.at_minute 2000 1 1 0 5, 20%Q);
             (Examples.at_minute 2000 1 1 0 10, 0%Q) ]).
  - repeat constructor.
  - repeat constructor.
Defined.

(** C5: on the series [tied], two samples at 00:05, the volumes over
    [00:00, 00:05] and [00:05, 00:10] are 300 and 900, and the volume over
    [00:00, 00:10] is 900, not 1200: the interval that starts at 00:05
    is anchored at the second sample of 00:05, the walk across 00:05
    holds the first one. *)
Lemma tied_split_volumes :
  ascending Examples.tied /\
  (calculate_volume Examples.tied
     (Examples.at_minute 2000 1 1 0 0) (Examples.at_minute 2000 1 1 0 5)
   == 300)%Q /\
  (calculate_volume Examples.tied
     (Examples.at_minute 2000 1 1 0 5) (Examples.at_minute 2000 1 1 0 10)
   == 900)%Q /\
  (calculate_volume Examples.tied
     (Examples.at_minute 2000 1 1 0 0) (Examples.at_minute 2000 1 1 0 10)
   == 900)%Q.
Proof.
  split; [repeat constructor |]. repeat split; vm_compute; reflexivity.
Qed.

(** Away from repeated timestamps, in exact arithmetic: on a non-empty
    series whose timestamps are strictly increasing, for instants
    [a < b < c] within the span of the series, the volumes over [a, b] and
    [b, c] add up to the volume over [a, c]. *)
Theorem volume_additive (first : sample) (rest : list sample)
    (a b c : datetime) :
  let data := first :: rest in
  valid_series data -> strictly_ascending data ->
  valid a -> valid b -> valid c ->
  leb (fst first) a = true -> ltb a b = true -> ltb b c = true ->
  leb c (fst (last data first)) = true ->
  (calculate_volume data a b + calculate_volume data b c
   == calculate_volume data a c)%Q.
Proof.
  intros data Hv Hs Ha Hb Hc Hfa Hab Hbc Hcl. subst data.
  assert (Hf : valid (fst first)) by now inversion Hv.
  assert (Hl : valid (fst (last (first :: rest) first)))
    by (apply (last_Forall (fun s => valid (fst s))); assumption).
  dt_to_Z.
  rewrite !calculate_volume_in_span; try assumption; try lia.
  symmetry. apply step_integral_add; try assumption; try lia.
  now apply strictly_ascending_ascending.
Qed.

Lemma volume_additive_witness :
  (calculate_volume Examples.scenario
     (Examples.at_minute 2000 1 1 0 2) (Examples.at_minute 2000 1 1 0 5)
   + calculate_volume Examples.scenario
       (Examples.at_minute 2000 1 1 0 5) (Examples.at_minute 2000 1 1 0 9)
   == calculate_volume Examples.scenario
        (Examples.at_minute 2000 1 1 0 2) (Examples.at_minute 2000 1 1 0 9))%Q.
Proof.
  apply (volume_additive
           (Examples.at_minute 2000 1 1 0 0, 10%Q)
           [ (Examples.at_minute 2000 1 1 0 5, 20%Q);
             (Examples.at_minute 2000 1 1 0 10, 0%Q) ]
           (Examples.at_minute 2000 1 1 0 2)
           (Examples.at_minute 2000 1 1 0 5)
           (Examples.at_minute 2000 1 1 0 9));
    try reflexivity; repeat constructor.
Defined.

End VolumeFacts.

(** * Facts about the daily extremes *)

Module ExtremesFacts.

Import Datetime Uvf2volume Spec FloatFacts DatetimeFacts VolumeFacts.

Lemma date_eqb_eq d1 d2 : date_eqb d1 d2 = true -> d1 = d2.
Proof.
  destruct d1 as [[y1 m1] x1], d2 as [[y2 m2] x2]. cbn. intros H.
  apply andb_prop in H. destruct H as [H H3].
  apply andb_prop in H. destruct H as [H1 H2].
  apply Z.eqb_eq in H1, H2, H3. congruence.
Qed.

Lemma scan_days_preserves d q data start_time end_time :
  forall cur results,
    tracked (cur, results) d q ->
    tracked (scan_days data start_time end_time cur results) d q.
Proof.
  induction data as [| [t v] rest IH]; intros cur results H;
    cbn [scan_days]; [exact H |].
  destruct (ltb t start_time); [now apply IH |].
  destruct (gtb t end_time); [exact H |].
  destruct cur as [[[current_day day_min] day_max] |].
  - destruct (date_eqb (date t) current_day) eqn:Ed; apply IH.
    + destruct H as [(mn & mx & E & Hmn & Hmx) | H]; [| now right].
      cbn [fst] in E. injection E as -> -> ->. left.
      eexists _, _. split; [reflexivity |]. split.
      * destruct (Qltb v mn) eqn:Ev; [| exact Hmn].
        apply Qltb_lt in Ev. lra.
      * destruct (Qltb mx v) eqn:Ev; [| exact Hmx].
        apply Qltb_lt in Ev. lra.
    + right. destruct H as [(mn & mx & E & Hmn & Hmx) | (r & Hr & Hc)].
      * cbn [fst] in E. injection E as -> -> ->.
        exists (mk_day_extreme d mn mx). cbn [snd]. split.
        -- apply in_or_app. right. now left.
        -- now repeat split.
      * exists r. cbn [snd] in *. split; [| exact Hc].
        apply in_or_app. now left.
  - apply IH. destruct H as [(mn & mx & E & _) | H]; [discriminate |].
    now right.
Qed.

(** In an ascending series the scan gets to every sample at [end_time]. *)
Lemma scan_days_reaches q data start_time end_time :
  valid start_time -> valid end_time ->
  to_us start_time <= to_us end_time ->
  valid_series data -> ascending data ->
  In (end_time, q) data ->
  forall cur results,
    tracked (scan_days data start_time end_time cur results)
      (date end_time) q.
Proof.
  intros Hs He Hse Hv Ha. induction Ha as [| [t v] rest Ha IH Hh];
    intros Hin cur results; [destruct Hin |].
  pose proof (ascending_lower_bound _ Hv
                (Sorted_cons Ha Hh) (t, v) rest (to_us t)
                eq_refl (Z.le_refl _)) as Hlo.
  inversion Hv as [| ? ? Ht Hv']; subst. cbn [fst] in Ht.
  assert (Hte : to_us t <= to_us end_time).
  { rewrite Forall_forall in Hlo. apply (Hlo _ Hin). }
  cbn [scan_days].
  replace (gtb t end_time) with false by (symmetry; dt_decide).
  destruct Hin as [E | Hin].
  - injection E as -> ->.
    replace (ltb end_time start_time) with false by (symmetry; dt_decide).
    destruct cur as [[[current_day day_min] day_max] |].
    + destruct (date_eqb (date end_time) current_day) eqn:Ed;
        apply scan_days_preserves; left.
      * apply date_eqb_eq in Ed. subst current_day.
        eexists _, _. split; [reflexivity |]. split.
        -- destruct (Qltb q day_min) eqn:Ev; [lra |].
           now apply Qltb_ge.
        -- destruct (Qltb day_max q) eqn:Ev; [lra |].
           now apply Qltb_ge.
      * exists q, q. cbn [fst]. repeat split; lra.
    + apply scan_days_preserves. left.
      exists q, q. cbn [fst]. repeat split; lra.
  - destruct (ltb t start_time); [now apply IH |].
    destruct cur as [[[current_day day_min] day_max] |];
      [destruct (date_eqb (date t) current_day) |]; now apply IH.
Qed.

(** *** Values at or beyond [end_time] are not read by the integration *)

Lemma agree_before_valid end_time data data' :
  agree_before end_time data data' -> valid_series data ->
  valid_series data'.
Proof.
  induction 1 as [| s s' l l' [Ht _] _ IH]; intros Hv; [constructor |].
  inversion Hv; subst. constructor; [now rewrite <- Ht | now apply IH].
Qed.

Lemma agree_before_last end_time data data' d d' :
  agree_before end_time data data' -> fst d = fst d' ->
  fst (last data d) = fst (last data' d').
Proof.
  induction 1 as [| s s' l l' [Ht _] Hl IH]; intros Hd; [exact Hd |].
  destruct Hl as [| y y' l l' [Hy _] Hl]; [exact Ht |].
  change (fst (last (y :: l) d) = fst (last (y' :: l') d')).
  now apply IH.
Qed.

Lemma find_q_at_start_agree end_time start_time data data' :
  valid start_time -> valid end_time -> valid_series data ->
  to_us start_time < to_us end_time ->
  agree_before end_time data data' ->
  forall prev,
    find_q_at_start data' start_time prev
    = find_q_at_start data start_time prev.
Proof.
  intros Hs He Hv Hlt H.
  induction H as [| [t q] [t' q'] l l' [Ht Hq] _ IH]; intros prev;
    [reflexivity |].
  cbn [fst snd] in *. subst t'. inversion Hv as [| ? ? Hvt Hv']; subst.
  cbn [fst] in Hvt. cbn [find_q_at_start].
  destruct (gtb t start_time) eqn:E; [reflexivity |].
  rewrite Hq by dt_decide. now apply IH.
Qed.

Lemma accumulate_agree end_time clipped_end data data' :
  valid end_time -> valid clipped_end -> valid_series data ->
  to_us clipped_end <= to_us end_time ->
  agree_before end_time data data' ->
  forall prev_time prev_q total,
    accumulate data' clipped_end prev_time prev_q total
    = accumulate data clipped_end prev_time prev_q total.
Proof.
  intros He Hc Hv Hle H.
  induction H as [| [t q] [t' q'] l l' [Ht Hq] _ IH];
    intros pt pq total; [reflexivity |].
  cbn [fst snd] in *. subst t'. inversion Hv as [| ? ? Hvt Hv']; subst.
  cbn [fst] in Hvt. cbn [accumulate].
  destruct (leb t pt); [now apply IH |].
  destruct (geb t clipped_end) eqn:E; [reflexivity |].
  rewrite Hq by dt_decide. now apply IH.
Qed.

Lemma calculate_volume_agree data data' start_time end_time :
  valid_series data -> valid start_time -> valid end_time ->
  to_us start_time <= to_us end_time ->
  agree_before end_time data data' ->
  calculate_volume data' start_time end_time
  = calculate_volume data start_time end_time.
Proof.
  intros Hv Hs He Hse H.
  pose proof (agree_before_valid _ _ _ H Hv) as Hv'.
  destruct H as [| first first' rest rest' Hf Hr]; [reflexivity |].
  pose proof (Forall2_cons _ _ Hf Hr) as H.
  pose proof (agree_before_last _ _ _ first first' H (proj1 Hf)) as Hlast.
  destruct Hf as [Hf _].
  assert (Hvf : valid (fst first)) by now inversion Hv.
  assert (Hvl : valid (fst (last (first :: rest) first)))
    by (apply (last_Forall (fun s => valid (fst s))); assumption).
  unfold calculate_volume. rewrite <- Hlast, <- Hf.
  destruct (eqb start_time end_time); [reflexivity |].
  replace (gtb start_time end_time) with false by (symmetry; dt_decide).
  repeat match goal with
    | |- (if ?c then _ else _) = _ =>
        lazymatch c with
        | context [if _ then _ else _] => fail
        | _ => destruct c; [reflexivity |]
        end
    end.
  match goal with
  | |- context [ltb start_time ?x] => destruct (ltb start_time x) eqn:E1
  end;
    match goal with
    | |- context [gtb end_time ?x] => destruct (gtb end_time x) eqn:E2
    end;
    match goal with
    | |- (if geb ?s ?e then _ else _) = _ =>
        destruct (geb s e) eqn:E3; [reflexivity |];
        rewrite (find_q_at_start_agree end_time s
                   (first :: rest) (first' :: rest'))
          by (try assumption; dt_to_Z; lia);
        destruct (find_q_at_start (first :: rest) s None) as [[pt pq] |];
        [| reflexivity];
        apply (accumulate_agree end_time e
                 (first :: rest) (first' :: rest'));
        try assumption; dt_to_Z; lia
    end.
Qed.

(** C4: on an ascending series and for [start <= end], a sample whose
    timestamp is exactly [end] is taken into the daily extremes (an entry
    of its day bounds its value), whereas the integration never reads
    the value of a sample at or beyond [end]: changing those values
    leaves the volume unchanged. *)
Theorem end_inclusive_scan_exclusive_volume (data : list sample)
    (start_time end_time : datetime) :
  valid_series data -> valid start_time -> valid end_time ->
  ascending data -> leb start_time end_time = true ->
  (forall q,
      In (end_time, q) data ->
      exists r,
        In r (get_daily_extremes data start_time end_time) /\
        covers r (date end_time) q) /\
  (forall data',
      agree_before end_time data data' ->
      calculate_volume data' start_time end_time
      = calculate_volume data start_time end_time).
Proof.
  intros Hv Hs He Ha Hle. dt_to_Z. split.
  - intros q Hin. unfold get_daily_extremes.
    replace (gtb start_time end_time) with false by (symmetry; dt_decide).
    pose proof (scan_days_reaches q data start_time end_time
                  Hs He Hle Hv Ha Hin None []) as Ht.
    destruct (scan_days data start_time end_time None [])
      as [cur results].
    destruct Ht as [(mn & mx & E & Hmn & Hmx) | (r & Hr & Hc)];
      cbn [fst snd] in *.
    + subst cur. exists (mk_day_extreme (date end_time) mn mx). split.
      * apply in_or_app. right. now left.
      * now repeat split.
    + exists r. split; [| exact Hc].
      destruct cur as [[[d mn] mx] |]; [| exact Hr].
      apply in_or_app. now left.
  - intros data' H. now apply calculate_volume_agree.
Qed.

Lemma end_inclusive_scan_exclusive_volume_witness :
  (forall q,
      In (Examples.at_minute 2000 1 1 0 5, q) Examples.scenario ->
      exists r,
        In r (get_daily_extremes Examples.scenario
                (Examples.at_minute 2000 1 1 0 0)
                (Examples.at_minute 2000 1 1 0 5)) /\
        covers r (date (Examples.at_minute 2000 1 1 0 5)) q) /\
  (forall data',
      agree_before (Examples.at_minute 2000 1 1 0 5)
        Examples.scenario data' ->
      calculate_volume data'
        (Examples.at_minute 2000 1 1 0 0) (Examples.at_minute 2000 1 1 0 5)
      = calculate_volume Examples.scenario
          (Examples.at_minute 2000 1 1 0 0)
          (Examples.at_minute 2000 1 1 0 5)).
Proof.
  apply (end_inclusive_scan_exclusive_volume Examples.scenario
           (Examples.at_minute 2000 1 1 0 0)
           (Examples.at_minute 2000 1 1 0 5)).
  - exact scenario_valid.
  - reflexivity.
  - reflexivity.
  - repeat constructor.
  - reflexivity.
Defined.

(** The sample at 00:05 is in the extremes of the scan up to 00:05, and
    its value does not enter the volume up to 00:05. *)
Example scenario_extremes :
  get_daily_extremes Examples.scenario
    (Examples.at_minute 2000 1 1 0 0) (Examples.at_minute 2000 1 1 0 5)
  = [mk_day_extreme (2000, 1, 1) 10%Q 20%Q].
Proof. reflexivity. Qed.

End ExtremesFacts.

(** * Facts about list indexing and [bisect_left] *)

Module BisectFacts.

Import FloatFacts.

(** Decide the range tests of an index. *)
Ltac index_tests :=
  unfold getitem; cbv zeta;
  repeat (match goal with
          | |- context [?a <? ?b] =>
              lazymatch a with
              | context [if _ then _ else _] => fail
              | _ => destruct (Z.ltb_spec a b); try lia
              end
          | |- context [?a <=? ?b] =>
              lazymatch b with
              | context [if _ then _ else _] => fail
              | _ => destruct (Z.leb_spec a b); try lia
              end
          end; cbv iota; cbn [orb]).

Lemma getitem_nth {A : Type} (l : list A) (i : nat) (d : A) :
  (i < length l)%nat -> getitem l (Z.of_nat i) = Ok (nth i l d).
Proof.
  intros H. index_tests. rewrite Nat2Z.id.
  destruct (nth_error l i) as [a |] eqn:E.
  - now rewrite (nth_error_nth _ _ d E).
  - apply nth_error_None in E. lia.
Qed.

Lemma last_is_nth {A : Type} (l : list A) (d : A) :
  last l d = nth (length l - 1) l d.
Proof.
  induction l as [| x l IH]; [reflexivity |].
  destruct l as [| y l']; [reflexivity |].
  change (last (x :: y :: l') d) with (last (y :: l') d). rewrite IH.
  cbn [length]. now replace (S (S (length l')) - 1)%nat
    with (S (S (length l') - 1)) by lia.
Qed.

Lemma getitem_last {A : Type} (l : list A) (d : A) :
  l <> [] -> getitem l (-1) = Ok (last l d).
Proof.
  intros H.
  assert (Hlen : (0 < length l)%nat) by (destruct l; [easy | cbn; lia]).
  index_tests.
  replace (Z.to_nat (-1 + Z.of_nat (length l))) with (length l - 1)%nat
    by lia.
  destruct (nth_error l (length l - 1)) as [a |] eqn:E.
  - rewrite <- (nth_error_nth _ _ d E). f_equal. symmetry.
    apply last_is_nth.
  - apply nth_error_None in E. lia.
Qed.

Lemma getitem_out_of_range {A : Type} (l : list A) (i : Z) :
  Z.of_nat (length l) <= i -> getitem l i = Raise IndexError.
Proof. intros H. now index_tests. Qed.

Lemma half_bounds (lo hi : nat) :
  (lo < hi)%nat -> (lo <= (lo + hi) / 2 < hi)%nat.
Proof.
  intros H.
  pose proof (Nat.div_mod_eq (lo + hi) 2) as E.
  pose proof (Nat.mod_upper_bound (lo + hi) 2) as U.
  lia.
Qed.

(** Once the fuel covers the width of the search interval, more fuel
    does not change the result: the loop has ended by itself. *)
Lemma bisect_loop_fuel a x :
  forall fuel fuel' lo hi,
    (hi - lo <= fuel)%nat -> (hi - lo <= fuel')%nat ->
    bisect_loop fuel a x lo hi = bisect_loop fuel' a x lo hi.
Proof.
  induction fuel as [| fuel IH]; intros fuel' lo hi H H'.
  - destruct fuel' as [| fuel']; [reflexivity |]. cbn [bisect_loop].
    replace (lo <? hi)%nat with false
      by (symmetry; apply Nat.ltb_ge; lia).
    reflexivity.
  - cbn [bisect_loop]. destruct (lo <? hi)%nat eqn:E.
    + apply Nat.ltb_lt in E. pose proof (half_bounds lo hi E) as Hm.
      destruct fuel' as [| fuel']; [lia |]. cbn [bisect_loop].
      replace (lo <? hi)%nat with true
        by (symmetry; apply Nat.ltb_lt; lia).
      destruct (Qltb _ x); apply IH; lia.
    + destruct fuel' as [| fuel']; [reflexivity |]. cbn [bisect_loop].
      now rewrite E.
Qed.

Lemma strongly_sorted_nth {A : Type} (R : A -> A -> Prop) (l : list A)
    (d : A) :
  StronglySorted R l ->
  forall i j, (i < j < length l)%nat -> R (nth i l d) (nth j l d).
Proof.
  induction 1 as [| a l Hs IH Hf]; intros i j Hij; [cbn in Hij; lia |].
  cbn [length] in Hij. destruct j as [| j]; [lia |].
  destruct i as [| i]; cbn [nth].
  - rewrite Forall_forall in Hf. apply Hf, nth_In. lia.
  - apply IH. lia.
Qed.

Lemma sorted_nth_le (xs : list Q) :
  Sorted Qle xs ->
  forall i j, (i <= j < length xs)%nat -> (nth i xs 0 <= nth j xs 0)%Q.
Proof.
  intros Hs i j Hij.
  destruct (Nat.eq_dec i j) as [-> | Hne]; [apply Qle_refl |].
  apply (strongly_sorted_nth Qle).
  - apply Sorted_StronglySorted; [| exact Hs].
    intros x y z. apply Qle_trans.
  - lia.
Qed.


Lemma sorted_lt_le (xs : list Q) : Sorted Qlt xs -> Sorted Qle xs.
Proof.
  induction 1 as [| x l Hs IH Hh]; constructor; [exact IH |].
  destruct Hh; constructor. now apply Qlt_le_weak.
Qed.

(** The loop keeps the insertion point between [lo] and [hi]: on a
    sorted list it returns the first position whose element is not less
    than [x]. *)
Lemma bisect_loop_spec (a : list Q) (x : Q) :
  Sorted Qle a ->
  forall fuel lo hi,
    (lo <= hi <= length a)%nat -> (hi - lo <= fuel)%nat ->
    (forall i, (i < lo)%nat -> (nth i a 0 < x)%Q) ->
    (forall i, (hi <= i < length a)%nat -> (x <= nth i a 0)%Q) ->
    let r := bisect_loop fuel a x lo hi in
    (lo <= r <= hi)%nat /\
    (forall i, (i < r)%nat -> (nth i a 0 < x)%Q) /\
    (forall i, (r <= i < length a)%nat -> (x <= nth i a 0)%Q).
Proof.
  intros Hs. induction fuel as [| fuel IH]; intros lo hi Hb Hf Hlo Hhi.
  - cbn. assert (lo = hi) by lia. subst. repeat split; auto; lia.
  - cbn [bisect_loop]. destruct (lo <? hi)%nat eqn:E.
    + apply Nat.ltb_lt in E. pose proof (half_bounds lo hi E) as Hm.
      set (mid := ((lo + hi) / 2)%nat) in *.
      destruct (Qltb (nth mid a 0%Q) x) eqn:Em.
      * apply Qltb_lt in Em.
        destruct (IH (mid + 1)%nat hi) as (Hr & Hr1 & Hr2);
          try lia; try assumption.
        -- intros i Hi.
           pose proof (sorted_nth_le a Hs i mid) as Hle.
           assert (Hle' : (nth i a 0 <= nth mid a 0)%Q)
             by (apply Hle; lia).
           lra.
        -- repeat split; auto; lia.
      * apply Qltb_ge in Em.
        destruct (IH lo mid) as (Hr & Hr1 & Hr2); try lia; try assumption.
        -- intros i Hi.
           pose proof (sorted_nth_le a Hs mid i) as Hle.
           assert (Hle' : (nth mid a 0 <= nth i a 0)%Q)
             by (apply Hle; lia).
           lra.
        -- repeat split; auto; lia.
    + apply Nat.ltb_ge in E. assert (lo = hi) by lia. subst.
      repeat split; auto; lia.
Qed.

Lemma bisect_left_spec (a : list Q) (x : Q) :
  Sorted Qle a ->
  let r := bisect_left a x in
  (r <= length a)%nat /\
  (forall i, (i < r)%nat -> (nth i a 0 < x)%Q) /\
  (forall i, (r <= i < length a)%nat -> (x <= nth i a 0)%Q).
Proof.
  intros Hs. unfold bisect_left.
  destruct (bisect_loop_spec a x Hs (length a) 0%nat (length a))
    as (Hr & Hr1 & Hr2); try lia.
  repeat split; auto; lia.
Qed.

End BisectFacts.

(** * Facts about the table interpolation *)

Module InterpFacts.

Import Uvf2volumeSoll LinearInterpolation FloatFacts BisectFacts.

Lemma truediv_ok (a b : Q) : ~ (b == 0)%Q -> truediv a b = Ok (a / b)%Q.
Proof.
  intros H. unfold truediv. destruct (Qeq_bool b 0) eqn:E; [| reflexivity].
  apply Qeq_bool_iff in E. contradiction.
Qed.

Lemma getitem_first (l : list Q) :
  l <> [] -> getitem l 0 = Ok (nth 0 l 0%Q).
Proof.
  intros H. apply (getitem_nth l 0%nat).
  destruct l; [easy | cbn; lia].
Qed.

Lemma length_nonempty {A : Type} (l : list A) :
  (1 <= length l)%nat -> l <> [].
Proof. destruct l; cbn; [lia | easy]. Qed.

Section Table.

Variables xs ys : list Q.
Hypothesis Hlen : (2 <= length xs)%nat.
Hypothesis Hys : length ys = length xs.

Lemma interp_below (x : Q) :
  (x <= nth 0 xs 0)%Q -> interp x xs ys = Ok (nth 0 ys 0%Q).
Proof.
  intros H. unfold interp.
  rewrite getitem_first by (apply length_nonempty; lia). cbn [bind].
  replace (Qle_bool x (nth 0 xs 0%Q)) with true
    by (symmetry; now apply Qle_bool_iff).
  apply getitem_first, length_nonempty. lia.
Qed.

Lemma interp_above (x : Q) :
  (nth 0 xs 0 < x)%Q -> (last xs 0 <= x)%Q ->
  interp x xs ys = Ok (last ys 0%Q).
Proof.
  intros H1 H2. unfold interp.
  rewrite getitem_first by (apply length_nonempty; lia). cbn [bind].
  replace (Qle_bool x (nth 0 xs 0%Q)) with false
    by (symmetry; now apply Qle_bool_false).
  rewrite (getitem_last xs 0%Q) by (apply length_nonempty; lia).
  cbn [bind].
  replace (Qle_bool (last xs 0%Q) x) with true
    by (symmetry; now apply Qle_bool_iff).
  apply getitem_last, length_nonempty. lia.
Qed.

(** Strictly inside the table the search returns an interior index
    whose left neighbour is strictly below [x]. *)
Lemma interp_inside (x : Q) :
  Sorted Qle xs ->
  (nth 0 xs 0 < x)%Q -> (x < last xs 0)%Q ->
  let i := bisect_left xs x in
  let x0 := nth (i - 1) xs 0%Q in
  let x1 := nth i xs 0%Q in
  let y0 := nth (i - 1) ys 0%Q in
  let y1 := nth i ys 0%Q in
  (1 <= i < length xs)%nat /\
  (x0 < x)%Q /\ (x <= x1)%Q /\
  interp x xs ys = Ok (y0 + (x - x0) / (x1 - x0) * (y1 - y0))%Q.
Proof.
  intros Hs Hlo Hhi i x0 x1 y0 y1.
  destruct (bisect_left_spec xs x Hs) as (Hr & Hr1 & Hr2).
  fold i in Hr, Hr1, Hr2.
  rewrite last_is_nth in Hhi.
  assert (Hi : (1 <= i < length xs)%nat).
  { split.
    - destruct (Nat.eq_dec i 0) as [E | E]; [| lia].
      specialize (Hr2 0%nat). rewrite E in Hr2.
      assert ((x <= nth 0 xs 0)%Q) by (apply Hr2; lia). lra.
    - destruct (Nat.eq_dec i (length xs)) as [E | E]; [| lia].
      specialize (Hr1 (length xs - 1)%nat).
      assert ((nth (length xs - 1) xs 0 < x)%Q) by (apply Hr1; lia).
      lra. }
  assert (H0 : (x0 < x)%Q) by (apply Hr1; lia).
  assert (H1 : (x <= x1)%Q) by (apply Hr2; lia).
  repeat split; try assumption; try lia.
  unfold interp.
  rewrite getitem_first by (apply length_nonempty; lia). cbn [bind].
  replace (Qle_bool x (nth 0 xs 0%Q)) with false
    by (symmetry; now apply Qle_bool_false).
  rewrite (getitem_last xs 0%Q) by (apply length_nonempty; lia).
  cbn [bind]. rewrite last_is_nth.
  replace (Qle_bool (nth (length xs - 1) xs 0%Q) x) with false
    by (symmetry; now apply Qle_bool_false).
  fold i.
  replace (Z.of_nat i - 1) with (Z.of_nat (i - 1)) by lia.
  rewrite (getitem_nth xs (i - 1) 0%Q) by lia.
  rewrite (getitem_nth ys (i - 1) 0%Q) by lia.
  rewrite (getitem_nth xs i 0%Q) by lia.
  rewrite (getitem_nth ys i 0%Q) by lia.
  cbn [bind]. fold x0 x1 y0 y1.
  rewrite truediv_ok by lra. reflexivity.
Qed.

End Table.

(** *** Tables built by [load_table_2col] are sorted by x *)

Section SortedByKey.

Context {A : Type} (key : A -> Q).

Lemma insert_by_key_length i l :
  length (insert_by_key key i l) = S (length l).
Proof.
  induction l as [| j l IH]; [reflexivity |]. cbn [insert_by_key].
  destruct (Qltb (key i) (key j)); cbn [length]; now rewrite ?IH.
Qed.

Lemma insert_by_key_sorted i l :
  Sorted (fun a b => key a <= key b)%Q l ->
  Sorted (fun a b => key a <= key b)%Q (insert_by_key key i l).
Proof.
  induction 1 as [| j l Hs IH Hh]; cbn [insert_by_key].
  - repeat constructor.
  - destruct (Qltb (key i) (key j)) eqn:E.
    + apply Qltb_lt in E. repeat constructor; try assumption.
      now apply Qlt_le_weak.
    + apply Qltb_ge in E. constructor; [exact IH |].
      destruct Hh as [| k l' Hjk]; cbn [insert_by_key].
      * now constructor.
      * destruct (Qltb (key i) (key k)); now constructor.
Qed.

Lemma sorted_by_key_spec l :
  Sorted (fun a b => key a <= key b)%Q (sorted_by_key key l) /\
  length (sorted_by_key key l) = length l.
Proof.
  unfold sorted_by_key.
  assert (H : forall acc,
             Sorted (fun a b => key a <= key b)%Q acc ->
             Sorted (fun a b => key a <= key b)%Q
               (fold_left (fun acc i => insert_by_key key i acc) l acc) /\
             length (fold_left (fun acc i => insert_by_key key i acc) l acc)
             = (length l + length acc)%nat).
  { induction l as [| i l IH]; intros acc Hacc; cbn [fold_left length].
    - now split.
    - destruct (IH (insert_by_key key i acc)) as [H1 H2];
        [now apply insert_by_key_sorted |].
      split; [exact H1 |]. rewrite H2, insert_by_key_length. lia. }
  destruct (H [] (Sorted_nil _)) as [H1 H2]. split; [exact H1 |].
  rewrite H2. cbn. lia.
Qed.

End SortedByKey.

Lemma load_table_2col_sorted (rows : list (Q * Q)) :
  Sorted Qle (fst (load_table_2col rows)) /\
  length (fst (load_table_2col rows)) = length rows /\
  length (snd (load_table_2col rows)) = length rows.
Proof.
  unfold load_table_2col. cbv zeta. cbn [fst snd].
  rewrite !length_map.
  set (key := fun i => nth i (map fst rows) 0%Q).
  destruct (sorted_by_key_spec key (seq 0 (length rows))) as [Hs Hl].
  rewrite length_seq in Hl. repeat split; try exact Hl. clear Hl.
  induction Hs as [| i l Hs IH Hh]; cbn [map]; [constructor |].
  constructor; [exact IH |].
  destruct Hh; cbn [map]; now constructor.
Qed.

(** C7: in a table of at least two pairs sorted by x, for a query
    strictly between the smallest and the largest x, the pair of
    neighbours selected by [bisect_left] satisfies [x0 < x <= x1], hence
    [x0 < x1]: the division of the interpolation formula does not raise
    and [interp] returns the interpolated value. *)
Theorem bracket_is_strict (xs ys : list Q) (x : Q) :
  Sorted Qle xs -> (2 <= length xs)%nat -> length ys = length xs ->
  (nth 0 xs 0 < x)%Q -> (x < last xs 0)%Q ->
  let i := bisect_left xs x in
  let x0 := nth (i - 1) xs 0%Q in
  let x1 := nth i xs 0%Q in
  let y0 := nth (i - 1) ys 0%Q in
  let y1 := nth i ys 0%Q in
  getitem xs (Z.of_nat i - 1) = Ok x0 /\
  getitem xs (Z.of_nat i) = Ok x1 /\
  (x0 < x1)%Q /\
  truediv (x - x0) (x1 - x0) = Ok ((x - x0) / (x1 - x0))%Q /\
  interp x xs ys = Ok (y0 + (x - x0) / (x1 - x0) * (y1 - y0))%Q.
Proof.
  intros Hs Hlen Hys Hlo Hhi i x0 x1 y0 y1.
  destruct (interp_inside xs ys Hlen Hys x Hs Hlo Hhi)
    as (Hi & H0 & H1 & Hint).
  fold i in Hi. fold i x0 in H0. fold i x1 in H1.
  fold i x0 x1 y0 y1 in Hint.
  repeat split.
  - replace (Z.of_nat i - 1) with (Z.of_nat (i - 1)) by lia.
    apply getitem_nth. lia.
  - apply getitem_nth. lia.
  - lra.
  - apply truediv_ok. lra.
  - exact Hint.
Qed.

Lemma scenario_table_sorted :
  Sorted Qle (fst (load_table_2col Examples.table_rows)).
Proof. repeat constructor. unfold Qle. cbn. lia. Qed.

Lemma bracket_is_strict_witness :
  let xs := fst (load_table_2col Examples.table_rows) in
  let ys := snd (load_table_2col Examples.table_rows) in
  let x := (30912898 # 100000000)%Q in
  let i := bisect_left xs x in
  let x0 := nth (i - 1) xs 0%Q in
  let x1 := nth i xs 0%Q in
  let y0 := nth (i - 1) ys 0%Q in
  let y1 := nth i ys 0%Q in
  getitem xs (Z.of_nat i - 1) = Ok x0 /\
  getitem xs (Z.of_nat i) = Ok x1 /\
  (x0 < x1)%Q /\
  truediv (x - x0) (x1 - x0) = Ok ((x - x0) / (x1 - x0))%Q /\
  interp x xs ys = Ok (y0 + (x - x0) / (x1 - x0) * (y1 - y0))%Q.
Proof.
  apply (bracket_is_strict
           (fst (load_table_2col Examples.table_rows))
           (snd (load_table_2col Examples.table_rows))
           (30912898 # 100000000)%Q).
  - exact scenario_table_sorted.
  - cbn. lia.
  - reflexivity.
  - reflexivity.
  - reflexivity.
Defined.

(** The two-point interpolation of [linear_interpolation.py] on an
    interior query. *)
Lemma lerp_with_bisect_inside (x0 x1 y0 y1 x : Q) :
  (x0 < x)%Q -> (x < x1)%Q ->
  lerp_with_bisect x0 x1 y0 y1 x
  = Ok (y0 + (x - x0) / (x1 - x0) * (y1 - y0))%Q.
Proof.
  intros H0 H1.
  assert (E : bisect_left [x0; x1] x = 1%nat).
  { unfold bisect_left.
    cbn [length bisect_loop Nat.ltb Nat.leb Nat.add Nat.div Nat.divmod
         fst nth].
    replace (Qltb x1 x) with false by (symmetry; apply Qltb_ge; lra).
    cbn [bisect_loop Nat.ltb Nat.leb Nat.add Nat.div Nat.divmod fst nth].
    replace (Qltb x0 x) with true by (symmetry; apply Qltb_lt; lra).
    reflexivity. }
  unfold lerp_with_bisect. cbv zeta. rewrite E.
  change (Z.of_nat 1 - 1) with (Z.of_nat 0).
  rewrite (getitem_nth [x0; x1] 0 0%Q) by (cbn; lia).
  rewrite (getitem_nth [x0; x1] 1 0%Q) by (cbn; lia).
  cbn [bind nth]. rewrite truediv_ok by lra. reflexivity.
Qed.




(** C3, counterexample: a table built from one pair is built and
    evaluated without any exception. *)
Lemma one_pair_table_does_not_fail :
  load_table_2col [(1, 2)%Q] = ([1%Q], [2%Q]) /\
  interp 5 [1%Q] [2%Q] = Ok 2%Q.
Proof. split; reflexivity. Qed.

(** C3 (amended): no table is rejected for being short.  Building from
    fewer than two rows returns the rows as they are; evaluating the
    one-pair table returns that pair's y for every query, and evaluating
    the empty table raises [IndexError]. *)
Theorem short_table_behaviour (x : Q) (row : Q * Q) :
  load_table_2col [] = ([], []) /\
  load_table_2col [row] = ([fst row], [snd row]) /\
  interp x [fst row] [snd row] = Ok (snd row) /\
  interp x [] [] = Raise IndexError.
Proof.
  repeat split.
  unfold interp. cbn.
  destruct (Qle_bool x (fst row)) eqn:E; [reflexivity |].
  apply Qle_bool_false in E.
  replace (Qle_bool (fst row) x) with true
    by (symmetry; apply Qle_bool_iff; lra).
  reflexivity.
Qed.

End InterpFacts.

(** * Facts about the hydrologic-year split *)

Module HydroFacts.

Import Datetime Uvf2volume Spec DatetimeFacts VolumeFacts.

Lemma hydro_start_valid n : 2 <= n <= 10000 -> valid (hydro_start n).
Proof.
  intros H. unfold valid, check_fields, hydro_start.
  cbn [year month day hour minute second microsecond].
  replace (1 <=? n - 1) with true by (symmetry; apply Z.leb_le; lia).
  replace (n - 1 <=? 9999) with true by (symmetry; apply Z.leb_le; lia).
  reflexivity.
Qed.

Lemma hydro_end_valid n : 1 <= n <= 9999 -> valid (hydro_end n).
Proof.
  intros H. unfold valid, check_fields, hydro_end.
  cbn [year month day hour minute second microsecond].
  replace (1 <=? n) with true by (symmetry; apply Z.leb_le; lia).
  replace (n <=? 9999) with true by (symmetry; apply Z.leb_le; lia).
  reflexivity.
Qed.

Lemma new_hydro_start n :
  2 <= n <= 10000 -> new (n - 1) 11 1 0 0 0 0 = Ok (hydro_start n).
Proof.
  intros H. unfold new. cbv zeta.
  fold (hydro_start n). now rewrite (hydro_start_valid n H).
Qed.

Lemma new_hydro_end n :
  1 <= n <= 9999 -> new n 10 31 23 59 59 0 = Ok (hydro_end n).
Proof.
  intros H. unfold new. cbv zeta.
  fold (hydro_end n). now rewrite (hydro_end_valid n H).
Qed.

(** Case analysis over the lexicographic comparison of two field
    tuples. *)
Ltac lex_cases :=
  unfold leb, ltb, cmp, lex in *;
  cbn [year month day hour minute second microsecond] in *;
  repeat match goal with
    | H : context [?x ?= ?y] |- _ => destruct (Z.compare_spec x y)
    | |- context [?x ?= ?y] => destruct (Z.compare_spec x y)
    end;
  try discriminate; try reflexivity; try lia.

(** Every instant lies at or after the start of its hydrologic year. *)
Lemma hydro_start_le t :
  valid t -> leb (hydro_start (_hydro_year t)) t = true.
Proof.
  intros Hv. apply valid_bounds in Hv.
  unfold hydro_start, _hydro_year.
  destruct (Z.leb_spec (month t) 10); lex_cases.
Qed.

(** An instant within the bounds of hydrologic year [n] has hydrologic
    year [n]. *)
Lemma hydro_year_of_bounds t n :
  leb (hydro_start n) t = true -> leb t (hydro_end n) = true ->
  _hydro_year t = n.
Proof.
  intros H1 H2. unfold hydro_start, hydro_end, _hydro_year in *.
  destruct (Z.leb_spec (month t) 10); lex_cases.
Qed.

Lemma hydro_year_mono a b :
  leb a b = true -> _hydro_year a <= _hydro_year b.
Proof.
  intros H. unfold _hydro_year.
  destruct (Z.leb_spec (month a) 10), (Z.leb_spec (month b) 10);
    lex_cases.
Qed.

Lemma max_valid a b : valid a -> valid b -> valid (max a b).
Proof. intros. unfold max. now destruct (gtb b a). Qed.

Lemma min_valid a b : valid a -> valid b -> valid (min a b).
Proof. intros. unfold min. now destruct (ltb b a). Qed.

Lemma max_to_us a b :
  valid a -> valid b -> to_us (max a b) = Z.max (to_us a) (to_us b).
Proof.
  intros Ha Hb. unfold max. destruct (gtb b a) eqn:E; dt_to_Z; lia.
Qed.

Lemma min_to_us a b :
  valid a -> valid b -> to_us (min a b) = Z.min (to_us a) (to_us b).
Proof.
  intros Ha Hb. unfold min. destruct (ltb b a) eqn:E; dt_to_Z; lia.
Qed.

Lemma geb_negb_ltb a b : valid a -> valid b -> geb a b = negb (ltb a b).
Proof.
  intros Ha Hb. rewrite geb_to_us, ltb_to_us by assumption.
  destruct (Z.leb_spec (to_us b) (to_us a)), (Z.ltb_spec (to_us a) (to_us b));
    try reflexivity; lia.
Qed.

Lemma in_py_range a b n : In n (py_range a b) <-> a <= n < b.
Proof.
  unfold py_range. rewrite in_map_iff. split.
  - intros (i & <- & Hi). apply in_seq in Hi. lia.
  - intros H. exists (Z.to_nat (n - a)). split; [lia |].
    apply in_seq. lia.
Qed.

(** The year loop appends the result of each year in turn. *)
Lemma hydro_loop_spec data s e years :
  Forall (fun n => 2 <= n <= 9999) years ->
  forall results,
    hydro_loop data s e years results
    = Ok (results ++ flat_map (year_result data s e) years).
Proof.
  induction 1 as [| n years Hn _ IH]; intros results; cbn [hydro_loop].
  - cbn. now rewrite app_nil_r.
  - rewrite new_hydro_start, new_hydro_end by lia. cbn [bind flat_map].
    unfold year_result at 1. cbv zeta.
    destruct (geb (max s (hydro_start n)) (min e (hydro_end n)));
      rewrite IH; [reflexivity |].
    now rewrite <- app_assoc.
Qed.

Section Interval.

Variable data : list sample.
Variables s e : datetime.
Hypothesis Hs : valid s.
Hypothesis He : valid e.

Lemma year_result_spec n :
  2 <= n <= 9999 ->
  year_result data s e n
  = if ltb (max s (hydro_start n)) (min e (hydro_end n)) then
      [mk_year_volume n (max s (hydro_start n)) (min e (hydro_end n))
         (calculate_volume data (max s (hydro_start n))
            (min e (hydro_end n)))]
    else [].
Proof.
  intros Hn. unfold year_result. cbv zeta.
  rewrite geb_negb_ltb.
  - now destruct (ltb _ _).
  - apply max_valid; [assumption | apply hydro_start_valid; lia].
  - apply min_valid; [assumption | apply hydro_end_valid; lia].
Qed.

Lemma in_year_results r years :
  Forall (fun n => 2 <= n <= 9999) years ->
  In r (flat_map (year_result data s e) years) <->
  exists n,
    In n years /\
    ltb (max s (hydro_start n)) (min e (hydro_end n)) = true /\
    r = mk_year_volume n (max s (hydro_start n)) (min e (hydro_end n))
          (calculate_volume data (max s (hydro_start n))
             (min e (hydro_end n))).
Proof.
  intros Hy. rewrite in_flat_map. rewrite Forall_forall in Hy.
  split; intros (n & Hn & H); exists n; (split; [exact Hn |]).
  - rewrite year_result_spec in H by auto.
    destruct (ltb _ _); [| destruct H].
    destruct H as [<- | []]. now split.
  - rewrite year_result_spec by auto. destruct H as [-> ->]. now left.
Qed.

Lemma year_results_years years :
  Forall (fun n => 2 <= n <= 9999) years ->
  map yv_year (flat_map (year_result data s e) years)
  = filter
      (fun n => ltb (max s (hydro_start n)) (min e (hydro_end n)))
      years.
Proof.
  induction 1 as [| n years Hn _ IH]; [reflexivity |].
  cbn [flat_map filter]. rewrite map_app, IH, year_result_spec by lia.
  now destruct (ltb _ _).
Qed.

End Interval.

(** C1, counterexample: for the query 31 Oct 2000 00:00 to
    02 Nov 2000 00:00 the two emitted intervals end at 23:59:59 and
    start at 00:00:00; the instant 31 Oct 2000 23:59:59.5 of the query is
    in neither. *)
Lemma hydrologic_split_leaves_gap :
  let start_time := Examples.at_minute 2000 10 31 0 0 in
  let end_time := Examples.at_minute 2000 11 2 0 0 in
  let t := mk_datetime 2000 10 31 23 59 59 500000 in
  Examples.scenario <> [] /\
  exists rs,
    compute_hydrologic_year_volumes Examples.scenario start_time end_time
    = Ok rs /\
    valid t /\ in_closed start_time end_time t /\ ~ covered_by rs t.
Proof.
  cbv zeta. split; [discriminate |]. eexists. split; [reflexivity |].
  split; [reflexivity |]. split; [split; reflexivity |].
  intros (r & Hin & H1 & H2).
  destruct Hin as [<- | [<- | []]]; cbn in H1, H2; discriminate.
Qed.

(** C1 (amended): for a query whose hydrologic years lie in 2..9999,
    after the swap into [s <= e], the splitter emits, in ascending year
    order, one result for every hydrologic year n from year(s) to
    year(e) whose clipped interval has [interval_start < interval_end];
    each emitted interval lies within the query and within the bounds
    [01 Nov (n-1) 00:00, 31 Oct n 23:59:59] of its year and carries the
    volume of that interval.  An instant is covered by an emitted
    interval exactly when it lies in the query, at or before
    31 Oct 23:59:59 of its own hydrologic year, and the clipped interval
    of that year is not degenerate. *)
Theorem hydrologic_split_coverage (data : list sample)
    (start_time end_time : datetime) :
  let s := if gtb start_time end_time then end_time else start_time in
  let e := if gtb start_time end_time then start_time else end_time in
  valid start_time -> valid end_time ->
  2 <= _hydro_year s -> _hydro_year e <= 9999 ->
  exists rs,
    compute_hydrologic_year_volumes data start_time end_time = Ok rs /\
    map yv_year rs
    = filter (fun n => ltb (max s (hydro_start n)) (min e (hydro_end n)))
        (py_range (_hydro_year s) (_hydro_year e + 1)) /\
    Forall
      (fun r =>
         let n := yv_year r in
         in_closed (hydro_start n) (hydro_end n) (interval_start r) /\
         in_closed (hydro_start n) (hydro_end n) (interval_end r) /\
         in_closed s e (interval_start r) /\
         in_closed s e (interval_end r) /\
         ltb (interval_start r) (interval_end r) = true /\
         volume_m3 r
         = calculate_volume data (interval_start r) (interval_end r))
      rs /\
    (forall t,
        valid t ->
        covered_by rs t <->
        in_closed s e t /\
        leb t (hydro_end (_hydro_year t)) = true /\
        ltb (max s (hydro_start (_hydro_year t)))
          (min e (hydro_end (_hydro_year t))) = true).
Proof.
  intros s e Hvs Hve Hlo Hhi.
  assert (Hs : valid s) by (subst s; now destruct (gtb _ _)).
  assert (He : valid e) by (subst e; now destruct (gtb _ _)).
  set (years := py_range (_hydro_year s) (_hydro_year e + 1)).
  assert (Hy : Forall (fun n => 2 <= n <= 9999) years).
  { apply Forall_forall. intros n Hn. apply in_py_range in Hn. lia. }
  exists (flat_map (year_result data s e) years).
  assert (Hb : forall n, 2 <= n <= 9999 ->
             valid (hydro_start n) /\ valid (hydro_end n) /\
             valid (max s (hydro_start n)) /\
             valid (min e (hydro_end n)) /\
             to_us (max s (hydro_start n))
             = Z.max (to_us s) (to_us (hydro_start n)) /\
             to_us (min e (hydro_end n))
             = Z.min (to_us e) (to_us (hydro_end n))).
  { intros n Hn.
    assert (valid (hydro_start n)) by (apply hydro_start_valid; lia).
    assert (valid (hydro_end n)) by (apply hydro_end_valid; lia).
    repeat split; try assumption.
    - now apply max_valid.
    - now apply min_valid.
    - now apply max_to_us.
    - now apply min_to_us. }
  split; [| split; [| split]].
  - unfold compute_hydrologic_year_volumes.
    replace (if gtb start_time end_time
             then (end_time, start_time) else (start_time, end_time))
      with (s, e) by (subst s e; now destruct (gtb _ _)).
    now rewrite hydro_loop_spec.
  - now apply year_results_years.
  - apply Forall_forall. intros r Hr.
    apply (in_year_results data s e Hs He r years Hy) in Hr.
    destruct Hr as (n & Hn & Hlt & ->).
    cbn [yv_year interval_start interval_end volume_m3]. cbv zeta.
    rewrite Forall_forall in Hy.
    destruct (Hb n (Hy n Hn)) as (V1 & V2 & V3 & V4 & E1 & E2).
    unfold in_closed. dt_to_Z.
    repeat split; try reflexivity;
      first [apply Z.leb_le | apply Z.ltb_lt]; lia.
  - intros t Ht. unfold covered_by. split.
    + intros (r & Hr & Hin).
      apply (in_year_results data s e Hs He r years Hy) in Hr.
      destruct Hr as (n & Hn & Hlt & ->).
      cbn [interval_start interval_end] in Hin.
      rewrite Forall_forall in Hy.
      destruct (Hb n (Hy n Hn)) as (V1 & V2 & V3 & V4 & E1 & E2).
      assert (En : _hydro_year t = n).
      { destruct Hin as [H1 H2]. apply hydro_year_of_bounds.
        - dt_to_Z. apply Z.leb_le. lia.
        - dt_to_Z. apply Z.leb_le. lia. }
      rewrite En. destruct Hin as [H1 H2]. unfold in_closed.
      repeat split; try exact Hlt; dt_to_Z; apply Z.leb_le; lia.
    + intros ([H1 H2] & H3 & H4).
      set (n := _hydro_year t) in *.
      assert (Hn : In n years).
      { apply in_py_range.
        pose proof (hydro_year_mono s t H1).
        pose proof (hydro_year_mono t e H2). lia. }
      pose proof (hydro_start_le t Ht) as H0. fold n in H0.
      rewrite Forall_forall in Hy.
      destruct (Hb n (Hy n Hn)) as (V1 & V2 & V3 & V4 & E1 & E2).
      eexists. split.
      * apply (in_year_results data s e Hs He _ years).
        -- now apply Forall_forall.
        -- exists n. split; [exact Hn |]. split; [exact H4 | reflexivity].
      * cbn [interval_start interval_end]. unfold in_closed.
        dt_to_Z. split; apply Z.leb_le; lia.
Qed.

Lemma hydrologic_split_coverage_witness :
  let data := Examples.scenario in
  let s := Examples.at_minute 2000 10 31 0 0 in
  let e := Examples.at_minute 2000 11 2 0 0 in
  exists rs,
    compute_hydrologic_year_volumes data s e = Ok rs /\
    map yv_year rs
    = filter (fun n => ltb (max s (hydro_start n)) (min e (hydro_end n)))
        (py_range (_hydro_year s) (_hydro_year e + 1)) /\
    Forall
      (fun r =>
         let n := yv_year r in
         in_closed (hydro_start n) (hydro_end n) (interval_start r) /\
         in_closed (hydro_start n) (hydro_end n) (interval_end r) /\
         in_closed s e (interval_start r) /\
         in_closed s e (interval_end r) /\
         ltb (interval_start r) (interval_end r) = true /\
         volume_m3 r
         = calculate_volume data (interval_start r) (interval_end r))
      rs /\
    (forall t,
        valid t ->
        covered_by rs t <->
        in_closed s e t /\
        leb t (hydro_end (_hydro_year t)) = true /\
        ltb (max s (hydro_start (_hydro_year t)))
          (min e (hydro_end (_hydro_year t))) = true).
Proof.
  apply (hydrologic_split_coverage Examples.scenario
           (Examples.at_minute 2000 10 31 0 0)
           (Examples.at_minute 2000 11 2 0 0)).
  - reflexivity.
  - reflexivity.
  - cbn. lia.
  - cbn. lia.
Defined.

Example split_years :
  exists rs,
    compute_hydrologic_year_volumes Examples.scenario
      (Examples.at_minute 2000 10 31 0 0) (Examples.at_minute 2000 11 2 0 0)
    = Ok rs /\
    map (fun r => (yv_year r, interval_start r, interval_end r)) rs
    = [ (2000, Examples.at_minute 2000 10 31 0 0,
         mk_datetime 2000 10 31 23 59 59 0);
        (2001, Examples.at_minute 2000 11 1 0 0,
         Examples.at_minute 2000 11 2 0 0) ].
Proof. eexists. split; reflexivity. Qed.

(** Outside the years 2..9999 the year bounds cannot be constructed. *)
Example split_raises_in_year_one :
  compute_hydrologic_year_volumes Examples.scenario
    (Examples.at_minute 1 1 1 0 0) (Examples.at_minute 1 2 1 0 0)
  = Raise ValueError.
Proof. reflexivity. Qed.

End HydroFacts.

(** * Further properties of the engine *)

(** ** The volume as an integral *)

Module IntegralFacts.

Import Datetime Uvf2volume Spec DatetimeFacts VolumeFacts HydroFacts.

(** Settle the datetime tests of the goal, outermost decidable first. *)
Ltac dt_simp :=
  repeat (match goal with
          | |- context [if ?c then _ else _] =>
              lazymatch c with
              | context [if _ then _ else _] => fail
              | _ => idtac
              end;
              first
                [ replace c with true by (symmetry; dt_decide)
                | replace c with false by (symmetry; dt_decide)
                | destruct c eqn:?; dt_to_Z; try lia ]
          end; cbv iota).


Lemma degenerate_case (first : sample) (rest : list sample) a :
  calculate_volume (first :: rest) a a = 0%Q.
Proof.
  unfold calculate_volume.
  now rewrite (proj2 (eqb_eq a a) eq_refl).
Qed.

Lemma disjoint_case (first : sample) (rest : list sample) a b :
  (let s := if gtb a b then b else a in
   let e := if gtb a b then a else b in
   leb e (fst first) = true \/
   geb s (fst (last (first :: rest) first)) = true) ->
  calculate_volume (first :: rest) a b = 0%Q.
Proof.
  cbv zeta. intros H. unfold calculate_volume.
  destruct (eqb a b); [reflexivity |].
  destruct (gtb a b);
    match goal with
    | |- (if ?c then _ else _) = _ => destruct c eqn:E; [reflexivity |]
    end;
    (destruct H as [H | H]; [congruence | now rewrite H]).
Qed.

Lemma swap_symmetric {A : Type} (f : datetime -> datetime -> A) a b :
  valid a -> valid b -> a <> b ->
  (let '(s, e) := if gtb a b then (b, a) else (a, b) in f s e)
  = (let '(s, e) := if gtb b a then (a, b) else (b, a) in f s e).
Proof.
  intros Ha Hb Hne.
  destruct (gtb a b) eqn:E1, (gtb b a) eqn:E2; try reflexivity; dt_to_Z.
  - lia.
  - exfalso. apply Hne. apply to_us_inj; try assumption. lia.
Qed.

Lemma eqb_sym_false a b : eqb a b = false -> eqb b a = false /\ a <> b.
Proof.
  intros E. split.
  - destruct (eqb b a) eqn:E'; [| reflexivity].
    apply eqb_eq in E'. subst b.
    now rewrite (proj2 (eqb_eq a a) eq_refl) in E.
  - intros ->. now rewrite (proj2 (eqb_eq b b) eq_refl) in E.
Qed.


Lemma calculate_volume_clip (first : sample) (rest : list sample) a b :
  valid_series (first :: rest) -> valid a -> valid b ->
  to_us (fst first) <= to_us (fst (last (first :: rest) first)) ->
  to_us a < to_us b -> to_us (fst first) < to_us b ->
  to_us a < to_us (fst (last (first :: rest) first)) ->
  calculate_volume (first :: rest) a b
  = calculate_volume (first :: rest)
      (max a (fst first)) (min b (fst (last (first :: rest) first))).
Proof.
  intros Hv Ha Hb Hfl Hab Hfb Hal.
  assert (Hf : valid (fst first)) by now inversion Hv.
  assert (Hl : valid (fst (last (first :: rest) first)))
    by (apply (last_Forall (fun s => valid (fst s))); assumption).
  unfold calculate_volume, max, min, gtb.
  remember (fst (last (first :: rest) first)) as tl eqn:Etl.
  remember (fst first) as tf eqn:Etf.
  destruct (ltb a tf) eqn:E1, (ltb tl b) eqn:E2; dt_to_Z;
    dt_simp; reflexivity.
Qed.

Lemma step_integral_empty_interval data a b :
  to_us b <= to_us a -> (step_integral data a b == 0)%Q.
Proof.
  intros H. induction data as [| [t0 q0] l IH]; [reflexivity |].
  destruct l as [| [t1 q1] l']; [reflexivity |].
  rewrite step_integral_cons2, IH. unfold overlap.
  replace (Z.max 0 (Z.min (to_us t1) (to_us b) - Z.max (to_us t0) (to_us a)))
    with 0 by lia.
  rewrite total_seconds_0. ring.
Qed.

Lemma step_integral_zero_before data a b :
  Forall (fun s => to_us (fst s) <= to_us a) data ->
  (step_integral data a b == 0)%Q.
Proof.
  induction 1 as [| [t0 q0] l Ht Hl IH]; [reflexivity |].
  destruct l as [| [t1 q1] l']; [reflexivity |].
  inversion Hl as [| ? ? Ht1 _]; subst. cbn [fst] in *.
  rewrite step_integral_cons2, IH.
  rewrite (overlap_zero_before t0 t1) by exact Ht1.
  rewrite total_seconds_0. ring.
Qed.

(** Only the part of the interval inside the span of the samples
    matters. *)
Lemma step_integral_clip data a b a' b' lo hi :
  Forall (fun s => lo <= to_us (fst s) <= hi) data ->
  Z.max (to_us a) lo = Z.max (to_us a') lo ->
  Z.min (to_us b) hi = Z.min (to_us b') hi ->
  (step_integral data a b == step_integral data a' b')%Q.
Proof.
  intros H Ea Eb. induction H as [| [t0 q0] l Ht Hl IH]; [reflexivity |].
  destruct l as [| [t1 q1] l']; [reflexivity |].
  inversion Hl as [| ? ? Ht1 _]; subst. cbn [fst] in *.
  rewrite !step_integral_cons2, IH. unfold overlap.
  replace (Z.min (to_us t1) (to_us b) - Z.max (to_us t0) (to_us a))
    with (Z.min (to_us t1) (to_us b') - Z.max (to_us t0) (to_us a'))
    by lia.
  reflexivity.
Qed.

Lemma span_bounds (first : sample) (rest : list sample) :
  valid_series (first :: rest) -> ascending (first :: rest) ->
  Forall
    (fun s =>
       to_us (fst first) <= to_us (fst s)
       <= to_us (fst (last (first :: rest) first)))
    (first :: rest).
Proof.
  intros Hv Hs.
  pose proof (ascending_lower_bound _ Hv Hs first rest
                (to_us (fst first)) eq_refl (Z.le_refl _)) as Hlo.
  pose proof (ascending_last_bound _ Hv Hs first) as Hhi.
  rewrite Forall_forall in *. intros s Hin. split; auto.
Qed.

(** On a series without repeated timestamps the code computes the
    integral of the step function over the requested interval, whatever
    its position relative to the samples. *)
Lemma calculate_volume_step_integral data a b :
  valid_series data -> strictly_ascending data ->
  valid a -> valid b -> to_us a <= to_us b ->
  (calculate_volume data a b == step_integral data a b)%Q.
Proof.
  intros Hv Hs Ha Hb Hab.
  destruct data as [| first rest]; [reflexivity |].
  pose proof (strictly_ascending_ascending _ Hs) as Hasc.
  pose proof (span_bounds first rest Hv Hasc) as Hb0.
  assert (Hf : valid (fst first)) by now inversion Hv.
  assert (Hl : valid (fst (last (first :: rest) first)))
    by (apply (last_Forall (fun s => valid (fst s))); assumption).
  assert (Hfl : to_us (fst first) <= to_us (fst (last (first :: rest) first))).
  { inversion Hb0; subst. lia. }
  destruct (Z.eq_dec (to_us a) (to_us b)) as [E | E].
  { apply to_us_inj in E; try assumption. subst b.
    rewrite (degenerate_case first rest a).
    symmetry. apply step_integral_empty_interval. lia. }
  destruct (Z_le_gt_dec (to_us b) (to_us (fst first))) as [E1 | E1].
  { rewrite (disjoint_case first rest a b)
      by (left; cbv zeta;
          replace (gtb a b) with false by (symmetry; dt_decide);
          dt_decide).
    symmetry. apply step_integral_zero_after.
    eapply Forall_impl; [| exact Hb0]. cbv beta. intros s Hs'. lia. }
  destruct (Z_le_gt_dec (to_us (fst (last (first :: rest) first))) (to_us a))
    as [E2 | E2].
  { rewrite (disjoint_case first rest a b)
      by (right; cbv zeta;
          replace (gtb a b) with false by (symmetry; dt_decide);
          dt_decide).
    symmetry. apply step_integral_zero_before.
    eapply Forall_impl; [| exact Hb0]. cbv beta. intros s Hs'. lia. }
  rewrite calculate_volume_clip by (try assumption; lia).
  pose proof (max_valid a _ Ha Hf) as Hvmax.
  pose proof (min_valid b _ Hb Hl) as Hvmin.
  pose proof (max_to_us a _ Ha Hf) as Emax.
  pose proof (min_to_us b _ Hb Hl) as Emin.
  rewrite (step_integral_clip _ a b (max a (fst first))
             (min b (fst (last (first :: rest) first))) _ _ Hb0) by lia.
  destruct (Z_lt_ge_dec (to_us (max a (fst first)))
              (to_us (min b (fst (last (first :: rest) first)))))
    as [E3 | E3].
  - apply calculate_volume_in_span; try assumption; lia.
  - assert (E4 : max a (fst first)
                 = min b (fst (last (first :: rest) first)))
      by (apply to_us_inj; try assumption; lia).
    rewrite E4, degenerate_case.
    symmetry. apply step_integral_empty_interval. lia.
Qed.

Lemma overlap_nonneg t0 t1 a b : (0 <= overlap t0 t1 a b)%Q.
Proof. unfold overlap. apply total_seconds_nonneg. lia. Qed.

Lemma step_integral_nonneg data a b :
  nonneg_series data -> (0 <= step_integral data a b)%Q.
Proof.
  induction 1 as [| [t0 q0] l Hq Hl IH]; [apply Qle_refl |].
  destruct l as [| [t1 q1] l']; [apply Qle_refl |].
  rewrite step_integral_cons2. cbn [snd] in Hq.
  pose proof (overlap_nonneg t0 t1 a b). nra.
Qed.




(** X2: on a series of non-negative values without repeated timestamps,
    a wider interval never has a smaller volume. *)
Theorem volume_monotone_in_interval (data : list sample)
    (a a' b' b : datetime) :
  valid_series data -> strictly_ascending data -> nonneg_series data ->
  valid a -> valid a' -> valid b' -> valid b ->
  leb a a' = true -> leb a' b' = true -> leb b' b = true ->
  (calculate_volume data a' b' <= calculate_volume data a b)%Q.
Proof.
  intros Hv Hs Hq Ha Ha' Hb' Hb H1 H2 H3. dt_to_Z.
  pose proof (strictly_ascending_ascending _ Hs) as Hasc.
  rewrite !calculate_volume_step_integral by (try assumption; lia).
  rewrite (step_integral_add data a a' b) by (try assumption; lia).
  rewrite (step_integral_add data a' b' b) by (try assumption; lia).
  pose proof (step_integral_nonneg data a a' Hq).
  pose proof (step_integral_nonneg data b' b Hq).
  lra.
Qed.

Lemma volume_monotone_in_interval_witness :
  (calculate_volume Examples.scenario
     (Examples.at_minute 2000 1 1 0 2) (Examples.at_minute 2000 1 1 0 7)
   <= calculate_volume Examples.scenario
        (Examples.at_minute 2000 1 1 0 1) (Examples.at_minute 2000 1 1 0 9))%Q.
Proof.
  apply (volume_monotone_in_interval Examples.scenario
           (Examples.at_minute 2000 1 1 0 1) (Examples.at_minute 2000 1 1 0 2)
           (Examples.at_minute 2000 1 1 0 7) (Examples.at_minute 2000 1 1 0 9));
    try reflexivity; try (repeat constructor).
  all: unfold Qle; cbn; lia.
Defined.



(** X4: when the requested interval overlaps the span of an ascending
    series, clipping it to the span beforehand does not change the
    volume. *)
Theorem clipping_is_idempotent (first : sample) (rest : list sample)
    (a b : datetime) :
  let data := first :: rest in
  let data_start := fst first in
  let data_end := fst (last data first) in
  valid_series data -> ascending data -> valid a -> valid b ->
  ltb a b = true -> ltb data_start b = true -> ltb a data_end = true ->
  calculate_volume data a b
  = calculate_volume data (max a data_start) (min b data_end).
Proof.
  intros data data_start data_end Hv Hs Ha Hb H1 H2 H3.
  subst data data_start data_end.
  assert (Hf : valid (fst first)) by now inversion Hv.
  assert (Hl : valid (fst (last (first :: rest) first)))
    by (apply (last_Forall (fun s => valid (fst s))); assumption).
  pose proof (span_bounds first rest Hv Hs) as Hb0.
  inversion Hb0 as [| ? ? Hfl _]; subst.
  dt_to_Z. apply calculate_volume_clip; try assumption; lia.
Qed.

Lemma clipping_is_idempotent_witness :
  calculate_volume Examples.scenario
    (Examples.at_minute 1999 1 1 0 0) (Examples.at_minute 2000 1 1 0 7)
  = calculate_volume Examples.scenario
      (max (Examples.at_minute 1999 1 1 0 0) (Examples.at_minute 2000 1 1 0 0))
      (min (Examples.at_minute 2000 1 1 0 7)
         (Examples.at_minute 2000 1 1 0 10)).
Proof.
  apply (clipping_is_idempotent
           (Examples.at_minute 2000 1 1 0 0, 10%Q)
           [ (Examples.at_minute 2000 1 1 0 5, 20%Q);
             (Examples.at_minute 2000 1 1 0 10, 0%Q) ]
           (Examples.at_minute 1999 1 1 0 0)
           (Examples.at_minute 2000 1 1 0 7));
    try reflexivity; repeat constructor.
Defined.

(** X5: a series whose first and last timestamps coincide (a single
    sample in particular) has volume 0 over every interval. *)
Theorem single_instant_series_has_no_volume (first : sample)
    (rest : list sample) (a b : datetime) :
  let data := first :: rest in
  valid_series data -> valid a -> valid b ->
  fst (last data first) = fst first ->
  calculate_volume data a b = 0%Q.
Proof.
  intros data Hv Ha Hb E. subst data.
  assert (Hf : valid (fst first)) by now inversion Hv.
  unfold calculate_volume. rewrite E.
  remember (fst first) as tf eqn:Etf.
  destruct (eqb a b) eqn:E0; [reflexivity |].
  destruct (gtb a b) eqn:E1; dt_to_Z; dt_simp; reflexivity.
Qed.

Lemma single_instant_series_has_no_volume_witness :
  calculate_volume [(Examples.at_minute 2000 1 1 0 0, 10%Q)]
    (Examples.at_minute 1999 1 1 0 0) (Examples.at_minute 2001 1 1 0 0)
  = 0%Q.
Proof.
  apply (single_instant_series_has_no_volume
           (Examples.at_minute 2000 1 1 0 0, 10%Q) []
           (Examples.at_minute 1999 1 1 0 0)
           (Examples.at_minute 2001 1 1 0 0));
    try reflexivity; repeat constructor.
Defined.

End IntegralFacts.

(** ** Order of the two instants *)

Module DirectionFacts.

Import Datetime Uvf2volume Spec DatetimeFacts VolumeFacts IntegralFacts.

(** X6: [calculate_volume] does not depend on the order in which the two
    instants are given. *)
Theorem calculate_volume_direction (data : list sample) (a b : datetime) :
  valid a -> valid b ->
  calculate_volume data a b = calculate_volume data b a.
Proof.
  intros Ha Hb. destruct (eqb a b) eqn:E.
  - apply eqb_eq in E. now subst.
  - destruct (eqb_sym_false a b E) as [E' Hne].
    unfold calculate_volume.
    destruct data as [| first rest]; [reflexivity |].
    rewrite E, E'.
    apply (swap_symmetric (fun s e => _) a b Ha Hb Hne).
Qed.

Lemma calculate_volume_direction_witness :
  calculate_volume Examples.scenario
    (Examples.at_minute 2000 1 1 0 7) (Examples.at_minute 2000 1 1 0 2)
  = calculate_volume Examples.scenario
      (Examples.at_minute 2000 1 1 0 2) (Examples.at_minute 2000 1 1 0 7)
  /\ valid (Examples.at_minute 2000 1 1 0 7).
Proof.
  split; [| reflexivity].
  apply (calculate_volume_direction Examples.scenario
           (Examples.at_minute 2000 1 1 0 7)
           (Examples.at_minute 2000 1 1 0 2)); reflexivity.
Defined.

(** X7: [get_daily_extremes] does not depend on the order in which the
    two instants are given. *)
Theorem get_daily_extremes_direction (data : list sample) (a b : datetime) :
  valid a -> valid b ->
  get_daily_extremes data a b = get_daily_extremes data b a.
Proof.
  intros Ha Hb. destruct (eqb a b) eqn:E.
  - apply eqb_eq in E. now subst.
  - destruct (eqb_sym_false a b E) as [E' Hne].
    unfold get_daily_extremes.
    apply (swap_symmetric (fun s e => _) a b Ha Hb Hne).
Qed.

Lemma get_daily_extremes_direction_witness :
  get_daily_extremes Examples.scenario
    (Examples.at_minute 2000 1 1 0 7) (Examples.at_minute 2000 1 1 0 2)
  = get_daily_extremes Examples.scenario
      (Examples.at_minute 2000 1 1 0 2) (Examples.at_minute 2000 1 1 0 7)
  /\ valid (Examples.at_minute 2000 1 1 0 7).
Proof.
  split; [| reflexivity].
  apply (get_daily_extremes_direction Examples.scenario
           (Examples.at_minute 2000 1 1 0 7)
           (Examples.at_minute 2000 1 1 0 2)); reflexivity.
Defined.

(** X8: [compute_hydrologic_year_volumes] does not depend on the order in
    which the two instants are given, errors included. *)
Theorem compute_hydrologic_year_volumes_direction (data : list sample)
    (a b : datetime) :
  valid a -> valid b ->
  compute_hydrologic_year_volumes data a b
  = compute_hydrologic_year_volumes data b a.
Proof.
  intros Ha Hb. destruct (eqb a b) eqn:E.
  - apply eqb_eq in E. now subst.
  - destruct (eqb_sym_false a b E) as [E' Hne].
    unfold compute_hydrologic_year_volumes.
    apply (swap_symmetric (fun s e => _) a b Ha Hb Hne).
Qed.

Lemma compute_hydrologic_year_volumes_direction_witness :
  compute_hydrologic_year_volumes Examples.scenario
    (Examples.at_minute 2000 1 1 0 7) (Examples.at_minute 1999 10 31 23 0)
  = compute_hydrologic_year_volumes Examples.scenario
      (Examples.at_minute 1999 10 31 23 0) (Examples.at_minute 2000 1 1 0 7)
  /\ valid (Examples.at_minute 2000 1 1 0 7).
Proof.
  split; [| reflexivity].
  apply (compute_hydrologic_year_volumes_direction Examples.scenario
           (Examples.at_minute 2000 1 1 0 7)
           (Examples.at_minute 1999 10 31 23 0)); reflexivity.
Defined.

End DirectionFacts.

(** ** Sum of two series *)

Module SuperpositionFacts.

Import Datetime Uvf2volume Spec MoreSpec DatetimeFacts VolumeFacts
  IntegralFacts.











End SuperpositionFacts.

(** ** Daily extremes *)

Module ExtremesMore.

Import Datetime Uvf2volume Spec MoreSpec FloatFacts DatetimeFacts VolumeFacts
  ExtremesFacts.

Lemma get_daily_extremes_finish data a b :
  get_daily_extremes data a b
  = finish (let '(s, e) := if gtb a b then (b, a) else (a, b) in
            scan_days data s e None []).
Proof.
  unfold get_daily_extremes, finish.
  destruct (gtb a b);
    match goal with
    | |- context [scan_days ?d ?s ?e None []] =>
        destruct (scan_days d s e None []) as [[[[cd mn] mx] |] rs]
    end; reflexivity.
Qed.

(** *** Every entry is made of sampled values *)

Lemma scan_days_entries all s e :
  valid s -> valid e -> valid_series all ->
  forall data cur results,
    incl data all ->
    Forall (entry_ok all s e) (finish (cur, results)) ->
    Forall (entry_ok all s e) (finish (scan_days data s e cur results)).
Proof.
  intros Hs He Hv. induction data as [| [t q] rest IH];
    intros cur results Hincl H; cbn [scan_days]; [exact H |].
  assert (Hrest : incl rest all) by (intros x Hx; apply Hincl; now right).
  assert (Hin : In (t, q) all) by (apply Hincl; now left).
  assert (Ht : valid t)
    by exact (proj1 (Forall_forall _ _) Hv (t, q) Hin).
  destruct (ltb t s) eqn:E1; [now apply IH |].
  destruct (gtb t e) eqn:E2; [exact H |].
  assert (Hq : sampled_on all s e (date t) q).
  { exists t. repeat split; try assumption; dt_decide. }
  destruct cur as [[[cd mn] mx] |].
  - unfold finish in H. cbn [fst snd] in H.
    apply Forall_app in H. destruct H as [Hres Hcur].
    inversion Hcur as [| ? ? (Hmn & Hmx & Hle) _]; subst.
    cbn [ex_date ex_min ex_max] in *.
    destruct (date_eqb (date t) cd) eqn:Ed; apply IH; try assumption;
      unfold finish; cbn [fst snd]; apply Forall_app; split;
      try assumption.
    + apply date_eqb_eq in Ed. subst cd.
      constructor; [| constructor]. unfold entry_ok.
      cbn [ex_date ex_min ex_max].
      destruct (Qltb q mn) eqn:E3, (Qltb mx q) eqn:E4;
        try apply Qltb_lt in E3; try apply Qltb_lt in E4;
        try apply Qltb_ge in E3; try apply Qltb_ge in E4;
        repeat split; try assumption; lra.
    + apply Forall_app. split; [assumption |].
      constructor; [| constructor]. now repeat split.
    + constructor; [| constructor]. repeat split; try assumption.
      apply Qle_refl.
  - apply IH; [assumption |]. unfold finish in *. cbn [fst snd] in *.
    apply Forall_app. split; [assumption |].
    constructor; [| constructor]. repeat split; try assumption.
    apply Qle_refl.
Qed.

(** *** Every sample in range is accounted for *)

Lemma scan_days_reaches_any t0 q0 data s e :
  valid s -> valid e -> valid t0 ->
  to_us s <= to_us t0 -> to_us t0 <= to_us e ->
  valid_series data -> ascending data ->
  In (t0, q0) data ->
  forall cur results,
    tracked (scan_days data s e cur results) (date t0) q0.
Proof.
  intros Hs He Ht0 Hst Hte Hv Ha. induction Ha as [| [t v] rest Ha IH Hh];
    intros Hin cur results; [destruct Hin |].
  pose proof (ascending_lower_bound _ Hv
                (Sorted_cons Ha Hh) (t, v) rest (to_us t)
                eq_refl (Z.le_refl _)) as Hlo.
  inversion Hv as [| ? ? Ht Hv']; subst. cbn [fst] in Ht.
  assert (Hle : to_us t <= to_us t0)
    by exact (proj1 (Forall_forall _ _) Hlo _ Hin).
  cbn [scan_days].
  replace (gtb t e) with false by (symmetry; dt_decide).
  destruct Hin as [E | Hin].
  - injection E as -> ->.
    replace (ltb t0 s) with false by (symmetry; dt_decide).
    destruct cur as [[[current_day day_min] day_max] |].
    + destruct (date_eqb (date t0) current_day) eqn:Ed;
        apply scan_days_preserves; left.
      * apply date_eqb_eq in Ed. subst current_day.
        eexists _, _. split; [reflexivity |]. split.
        -- destruct (Qltb q0 day_min) eqn:Ev; [lra |].
           now apply Qltb_ge.
        -- destruct (Qltb day_max q0) eqn:Ev; [lra |].
           now apply Qltb_ge.
      * exists q0, q0. cbn [fst]. repeat split; lra.
    + apply scan_days_preserves. left.
      exists q0, q0. cbn [fst]. repeat split; lra.
  - destruct (ltb t s); [now apply IH |].
    destruct cur as [[[current_day day_min] day_max] |];
      [destruct (date_eqb (date t) current_day) |]; now apply IH.
Qed.

Lemma tracked_finish st d q :
  tracked st d q -> exists r, In r (finish st) /\ covers r d q.
Proof.
  destruct st as [cur results]. unfold tracked, finish. cbn [fst snd].
  intros [(mn & mx & -> & Hmn & Hmx) | (r & Hr & Hc)].
  - exists (mk_day_extreme d mn mx). split.
    + apply in_or_app. right. now left.
    + now repeat split.
  - exists r. split; [| exact Hc].
    destruct cur as [[[cd mn] mx] |]; [| exact Hr].
    apply in_or_app. now left.
Qed.

(** *** The entries are in calendar order, one per day *)

Lemma date_lt_trans d1 d2 d3 : date_lt d1 d2 -> date_lt d2 d3 -> date_lt d1 d3.
Proof.
  destruct d1 as [[y1 m1] x1], d2 as [[y2 m2] x2], d3 as [[y3 m3] x3].
  unfold date_lt. lia.
Qed.

Lemma date_lt_irrefl d : ~ date_lt d d.
Proof. destruct d as [[y m] x]. unfold date_lt. lia. Qed.

Lemma date_eqb_neq d1 d2 : date_eqb d1 d2 = false -> d1 <> d2.
Proof.
  intros H ->. destruct d2 as [[y m] x]. cbn in H.
  now rewrite !Z.eqb_refl in H.
Qed.

(** The date of a datetime grows with it. *)
Lemma date_mono a b : leb a b = true -> date_le (date a) (date b).
Proof.
  unfold leb, cmp, lex, date_le, date_lt, date.
  destruct (Z.compare_spec (year a) (year b)) as [Ey | Ey | Ey];
    destruct (Z.compare_spec (month a) (month b)) as [Em | Em | Em];
    destruct (Z.compare_spec (day a) (day b)) as [Ed | Ed | Ed];
    intros H; try discriminate; try (left; lia).
  right. congruence.
Qed.

Lemma strongly_sorted_snoc {A : Type} (R : A -> A -> Prop) l x :
  StronglySorted R l -> Forall (fun y => R y x) l ->
  StronglySorted R (l ++ [x]).
Proof.
  induction 1 as [| a l Hs IH Hf]; intros H; cbn.
  - repeat constructor.
  - inversion H; subst. constructor; [now apply IH |].
    apply Forall_app. split; [exact Hf | now constructor].
Qed.

Lemma scan_inv_finish st rest :
  scan_inv st rest -> StronglySorted date_lt (map ex_date (finish st)).
Proof.
  destruct st as [[[[cd mn] mx] |] results]; unfold scan_inv, finish;
    cbn [fst snd]; intros [Hs H]; [| exact Hs].
  destruct H as [H _]. rewrite map_app. apply strongly_sorted_snoc.
  - exact Hs.
  - cbn [map ex_date]. apply Forall_map. exact H.
Qed.

Lemma scan_days_sorted s e data :
  valid_series data -> ascending data ->
  forall cur results,
    scan_inv (cur, results) data ->
    StronglySorted date_lt
      (map ex_date (finish (scan_days data s e cur results))).
Proof.
  intros Hv Ha. induction Ha as [| [t q] rest Ha IH Hh];
    intros cur results Hinv; cbn [scan_days];
    [now apply (scan_inv_finish _ []) |].
  pose proof (ascending_lower_bound _ Hv
                (Sorted_cons Ha Hh) (t, q) rest (to_us t)
                eq_refl (Z.le_refl _)) as Hlo.
  inversion Hv as [| ? ? Ht Hv']; subst. cbn [fst] in Ht.
  inversion Hlo as [| ? ? _ Hlo']; subst.
  assert (Hdates : Forall (fun x => date_le (date t) (date (fst x))) rest).
  { rewrite Forall_forall in *. intros x Hx. apply date_mono.
    rewrite leb_to_us; [apply Z.leb_le; now apply Hlo' | assumption |].
    now apply Hv'. }
  assert (Hdrop : scan_inv (cur, results) rest).
  { destruct Hinv as [H1 H2]. split; [exact H1 |].
    cbn [fst snd] in *. destruct cur as [[[cd mn] mx] |]; [| exact H2].
    destruct H2 as [H2 H3]. split; [exact H2 |]. now inversion H3. }
  destruct (ltb t s); [now apply (IH Hv') |].
  destruct (gtb t e); [now apply (scan_inv_finish _ rest) |].
  destruct cur as [[[cd mn] mx] |].
  - destruct (date_eqb (date t) cd) eqn:Ed; apply (IH Hv').
    + exact Hdrop.
    + destruct Hinv as [H1 [H2 H3]]. cbn [fst snd] in *.
      inversion H3 as [| ? ? Hcd _]; subst. cbn [fst] in Hcd.
      assert (Hlt : date_lt cd (date t)).
      { destruct Hcd as [Hcd | Hcd]; [exact Hcd |].
        apply date_eqb_neq in Ed. congruence. }
      split; cbn [fst snd].
      * rewrite map_app. apply strongly_sorted_snoc; [exact H1 |].
        cbn [map ex_date]. apply Forall_map. exact H2.
      * split; [| exact Hdates].
        apply Forall_app. split.
        -- eapply Forall_impl; [| exact H2]. cbv beta. intros r Hr.
           now apply (date_lt_trans _ cd).
        -- now constructor.
  - destruct Hinv as [H1 H2]. cbn [fst snd] in *. subst results.
    apply (IH Hv').
    split; cbn [fst snd]; [constructor |].
    split; [constructor | exact Hdates].
Qed.

Lemma get_daily_extremes_ordered data a b :
  valid a -> valid b -> leb a b = true ->
  get_daily_extremes data a b = finish (scan_days data a b None []).
Proof.
  intros Ha Hb H. rewrite get_daily_extremes_finish.
  now replace (gtb a b) with false by (symmetry; dt_decide).
Qed.

(** X10: every entry of the daily extremes is made of sampled values: its
    minimum and its maximum are values of samples of the series that fall
    on the entry's date inside the requested interval, and the minimum is
    at most the maximum. *)
Theorem extremes_are_sampled (data : list sample) (a b : datetime) :
  valid_series data -> valid a -> valid b -> leb a b = true ->
  Forall (entry_ok data a b) (get_daily_extremes data a b).
Proof.
  intros Hv Ha Hb H. rewrite get_daily_extremes_ordered by assumption.
  apply scan_days_entries; try assumption.
  - apply incl_refl.
  - constructor.
Qed.

Lemma extremes_are_sampled_witness :
  Forall
    (entry_ok Examples.scenario
       (Examples.at_minute 2000 1 1 0 0) (Examples.at_minute 2000 1 1 0 5))
    (get_daily_extremes Examples.scenario
       (Examples.at_minute 2000 1 1 0 0) (Examples.at_minute 2000 1 1 0 5)).
Proof.
  apply (extremes_are_sampled Examples.scenario
           (Examples.at_minute 2000 1 1 0 0)
           (Examples.at_minute 2000 1 1 0 5));
    try reflexivity; repeat constructor.
Defined.

Lemma strongly_sorted_nodup {A : Type} (R : A -> A -> Prop) (l : list A) :
  (forall x, ~ R x x) -> StronglySorted R l -> NoDup l.
Proof.
  intros Hirr. induction 1 as [| a l Hs IH Hf]; constructor; [| exact IH].
  intros Hin. rewrite Forall_forall in Hf. exact (Hirr a (Hf a Hin)).
Qed.

(** X11: on an ascending series the entries of the daily extremes are in
    calendar order and no date occurs twice. *)
Theorem one_entry_per_day (data : list sample) (a b : datetime) :
  valid_series data -> ascending data ->
  StronglySorted date_lt (map ex_date (get_daily_extremes data a b)) /\
  NoDup (map ex_date (get_daily_extremes data a b)).
Proof.
  intros Hv Ha.
  assert (H : StronglySorted date_lt
                (map ex_date (get_daily_extremes data a b))).
  { rewrite get_daily_extremes_finish.
    destruct (gtb a b); apply scan_days_sorted; try assumption;
      (split; [constructor | reflexivity]). }
  split; [exact H |].
  apply (strongly_sorted_nodup date_lt); [apply date_lt_irrefl | exact H].
Qed.

Lemma one_entry_per_day_witness :
  StronglySorted date_lt
    (map ex_date
       (get_daily_extremes Examples.tied
          (Examples.at_minute 2000 1 1 0 0)
          (Examples.at_minute 2000 1 1 0 10))) /\
  NoDup
    (map ex_date
       (get_daily_extremes Examples.tied
          (Examples.at_minute 2000 1 1 0 0)
          (Examples.at_minute 2000 1 1 0 10))).
Proof.
  apply (one_entry_per_day Examples.tied
           (Examples.at_minute 2000 1 1 0 0)
           (Examples.at_minute 2000 1 1 0 10));
    repeat constructor.
Defined.

Lemma nodup_map_inj {A B : Type} (f : A -> B) (l : list A) x y :
  NoDup (map f l) -> In x l -> In y l -> f x = f y -> x = y.
Proof.
  induction l as [| z l IH]; intros Hn Hx Hy E; [destruct Hx |].
  cbn [map] in Hn. inversion Hn as [| ? ? Hnot Hn']; subst.
  destruct Hx as [-> | Hx], Hy as [-> | Hy]; try reflexivity.
  - exfalso. apply Hnot. rewrite E. now apply in_map.
  - exfalso. apply Hnot. rewrite <- E. now apply in_map.
  - now apply IH.
Qed.

(** X12: on an ascending series, the entry of a day bounds every sample of
    that day inside the requested interval: with the entries being
    sampled values, its minimum and maximum are the day's extremes. *)
Theorem extremes_bound_the_day (data : list sample) (a b : datetime) :
  valid_series data -> ascending data -> valid a -> valid b ->
  leb a b = true ->
  Forall
    (fun r =>
       Forall
         (fun x =>
            in_closed a b (fst x) -> date (fst x) = ex_date r ->
            (ex_min r <= snd x)%Q /\ (snd x <= ex_max r)%Q)
         data)
    (get_daily_extremes data a b).
Proof.
  intros Hv Hasc Ha Hb H.
  apply Forall_forall. intros r Hr.
  apply Forall_forall. intros [t q] Hin [H1 H2] Ed. cbn [fst snd] in *.
  assert (Ht : valid t) by exact (proj1 (Forall_forall _ _) Hv (t, q) Hin).
  assert (Hn : NoDup (map ex_date (get_daily_extremes data a b))).
  { apply (strongly_sorted_nodup date_lt); [apply date_lt_irrefl |].
    rewrite get_daily_extremes_finish.
    destruct (gtb a b); apply scan_days_sorted; try assumption;
      (split; [constructor | reflexivity]). }
  assert (Hc : exists r', In r' (get_daily_extremes data a b)
                          /\ covers r' (date t) q).
  { rewrite get_daily_extremes_ordered by assumption.
    apply tracked_finish. dt_to_Z.
    now apply scan_days_reaches_any. }
  destruct Hc as (r' & Hr' & Hd & Hmn & Hmx).
  assert (r' = r)
    by (apply (nodup_map_inj ex_date _ _ _ Hn Hr' Hr); congruence).
  subst r'. now split.
Qed.

Lemma extremes_bound_the_day_witness :
  Forall
    (fun r =>
       Forall
         (fun x =>
            in_closed (Examples.at_minute 2000 1 1 0 0)
              (Examples.at_minute 2000 1 1 0 5) (fst x) ->
            date (fst x) = ex_date r ->
            (ex_min r <= snd x)%Q /\ (snd x <= ex_max r)%Q)
         Examples.scenario)
    (get_daily_extremes Examples.scenario
       (Examples.at_minute 2000 1 1 0 0) (Examples.at_minute 2000 1 1 0 5)).
Proof.
  apply (extremes_bound_the_day Examples.scenario
           (Examples.at_minute 2000 1 1 0 0)
           (Examples.at_minute 2000 1 1 0 5));
    try reflexivity; repeat constructor.
Defined.

(** X13: on an ascending series the daily extremes are empty exactly when
    no sample lies inside the requested interval. *)
Theorem extremes_empty_iff_no_sample (data : list sample)
    (a b : datetime) :
  valid_series data -> ascending data -> valid a -> valid b ->
  leb a b = true ->
  get_daily_extremes data a b = [] <->
  (forall t q, In (t, q) data -> ~ in_closed a b t).
Proof.
  intros Hv Hasc Ha Hb H. split.
  - intros E t q Hin [H1 H2].
    assert (Ht : valid t)
      by exact (proj1 (Forall_forall _ _) Hv (t, q) Hin).
    assert (Hc : exists r, In r (get_daily_extremes data a b)
                           /\ covers r (date t) q).
    { rewrite get_daily_extremes_ordered by assumption.
      apply tracked_finish. dt_to_Z.
      now apply scan_days_reaches_any. }
    destruct Hc as (r & Hr & _). rewrite E in Hr. destruct Hr.
  - intros Hno.
    assert (Hs : Forall (entry_ok data a b) (get_daily_extremes data a b)).
    { rewrite get_daily_extremes_ordered by assumption.
      apply scan_days_entries; try assumption;
        [apply incl_refl | constructor]. }
    destruct (get_daily_extremes data a b) as [| r rs]; [reflexivity |].
    inversion Hs as [| ? ? [(t & Hin & _ & Hc) _] _]; subst.
    exfalso. exact (Hno t _ Hin Hc).
Qed.

Lemma extremes_empty_iff_no_sample_witness :
  get_daily_extremes Examples.scenario
    (Examples.at_minute 1999 1 1 0 0) (Examples.at_minute 1999 6 1 0 0) = []
  <->
  (forall t q,
      In (t, q) Examples.scenario ->
      ~ in_closed (Examples.at_minute 1999 1 1 0 0)
          (Examples.at_minute 1999 6 1 0 0) t).
Proof.
  apply (extremes_empty_iff_no_sample Examples.scenario
           (Examples.at_minute 1999 1 1 0 0)
           (Examples.at_minute 1999 6 1 0 0));
    try reflexivity; repeat constructor.
Defined.

End ExtremesMore.

(** ** Hydrologic years *)

Module HydroMore.

Import Datetime Uvf2volume Spec MoreSpec DatetimeFacts VolumeFacts HydroFacts
  IntegralFacts.

(** X14: the hydrologic year of an instant is the year [n] whose span from
    01 Nov (n-1) 00:00 up to, but not including, 01 Nov n 00:00 contains
    it. *)
Theorem hydro_year_characterized (t : datetime) (n : Z) :
  valid t ->
  _hydro_year t = n <->
  leb (hydro_start n) t = true /\ ltb t (hydro_start (n + 1)) = true.
Proof.
  intros Hv. apply valid_bounds in Hv. split.
  - intros <-. unfold hydro_start, _hydro_year.
    destruct (Z.leb_spec (month t) 10); split; lex_cases.
  - intros [H1 H2]. unfold hydro_start, _hydro_year in *.
    destruct (Z.leb_spec (month t) 10); lex_cases.
Qed.

Lemma hydro_year_characterized_witness :
  _hydro_year (Examples.at_minute 2000 11 1 0 0) = 2001 <->
  leb (hydro_start 2001) (Examples.at_minute 2000 11 1 0 0) = true /\
  ltb (Examples.at_minute 2000 11 1 0 0) (hydro_start (2001 + 1)) = true.
Proof.
  apply (hydro_year_characterized (Examples.at_minute 2000 11 1 0 0) 2001).
  reflexivity.
Defined.

(** *** When the year bounds cannot be built *)

Lemma hydro_loop_app data s e l1 :
  forall l2 results,
    hydro_loop data s e (l1 ++ l2) results
    = (rs <- hydro_loop data s e l1 results ;;
       hydro_loop data s e l2 rs).
Proof.
  induction l1 as [| n l1 IH]; intros l2 results; [reflexivity |].
  cbn [app hydro_loop].
  destruct (new (n - 1) 11 1 0 0 0 0); [| reflexivity].
  destruct (new n 10 31 23 59 59 0); [| reflexivity].
  cbn [bind]. destruct (geb _ _); apply IH.
Qed.

Lemma hydro_loop_error data s e years :
  forall results err,
    hydro_loop data s e years results = Raise err -> err = ValueError.
Proof.
  induction years as [| n years IH]; intros results err H;
    cbn [hydro_loop] in H; [discriminate |].
  unfold new in H.
  destruct (check_fields _); cbn [bind] in H; [| congruence].
  destruct (check_fields _); cbn [bind] in H; [| congruence].
  destruct (geb _ _); now apply IH in H.
Qed.

Lemma py_range_snoc a b :
  a <= b -> py_range a (b + 1) = py_range a b ++ [b].
Proof.
  intros H. unfold py_range.
  replace (Z.to_nat (b + 1 - a)) with (S (Z.to_nat (b - a))) by lia.
  rewrite seq_S, map_app. cbn [map]. do 2 f_equal. lia.
Qed.

Lemma py_range_cons a b :
  a < b -> py_range a b = a :: py_range (a + 1) b.
Proof.
  intros H. unfold py_range.
  replace (Z.to_nat (b - a)) with (S (Z.to_nat (b - (a + 1)))) by lia.
  cbn [seq map]. f_equal; [lia |].
  rewrite <- seq_shift, map_map. apply map_ext. intros i. lia.
Qed.

Lemma hydro_year_bounds t : valid t -> 1 <= _hydro_year t <= 10000.
Proof.
  intros Hv. apply valid_bounds in Hv. unfold _hydro_year.
  destruct (month t <=? 10); lia.
Qed.

(** X15: the split returns normally exactly when the hydrologic years of
    the (swapped) endpoints lie in 2..9999; otherwise building a year
    bound raises [ValueError]: for an endpoint from January to October
    of year 1 or in November or December 9999. *)
Theorem split_raises_outside_years (data : list sample) (a b : datetime) :
  let s := if gtb a b then b else a in
  let e := if gtb a b then a else b in
  valid a -> valid b ->
  (2 <= _hydro_year s /\ _hydro_year e <= 9999 ->
   exists rs, compute_hydrologic_year_volumes data a b = Ok rs) /\
  (_hydro_year s < 2 \/ 9999 < _hydro_year e ->
   compute_hydrologic_year_volumes data a b = Raise ValueError).
Proof.
  intros s e Ha Hb.
  assert (Hs : valid s) by (subst s; now destruct (gtb _ _)).
  assert (He : valid e) by (subst e; now destruct (gtb _ _)).
  assert (Hse : leb s e = true).
  { subst s e. destruct (gtb a b) eqn:E; dt_decide. }
  pose proof (hydro_year_mono s e Hse) as Hmono.
  pose proof (hydro_year_bounds s Hs) as Bs.
  pose proof (hydro_year_bounds e He) as Be.
  assert (Hc : compute_hydrologic_year_volumes data a b
               = hydro_loop data s e
                   (py_range (_hydro_year s) (_hydro_year e + 1)) []).
  { unfold compute_hydrologic_year_volumes. subst s e.
    now destruct (gtb a b). }
  rewrite Hc. split.
  - intros [H1 H2]. eexists. apply hydro_loop_spec.
    apply Forall_forall. intros n Hn. apply in_py_range in Hn. lia.
  - intros [H | H].
    + rewrite py_range_cons by lia.
      replace (_hydro_year s) with 1 by lia. reflexivity.
    + replace (_hydro_year e) with 10000 by lia.
      rewrite py_range_snoc by lia. rewrite hydro_loop_app.
      destruct (hydro_loop data s e (py_range (_hydro_year s) 10000) [])
        as [rs | err] eqn:E; [reflexivity |].
      apply hydro_loop_error in E. now subst err.
Qed.

Lemma split_raises_outside_years_witness :
  (2 <= _hydro_year (Examples.at_minute 9999 10 1 0 0) /\
   _hydro_year (Examples.at_minute 9999 12 1 0 0) <= 9999 ->
   exists rs,
     compute_hydrologic_year_volumes Examples.scenario
       (Examples.at_minute 9999 10 1 0 0) (Examples.at_minute 9999 12 1 0 0)
     = Ok rs) /\
  (_hydro_year (Examples.at_minute 9999 10 1 0 0) < 2 \/
   9999 < _hydro_year (Examples.at_minute 9999 12 1 0 0) ->
   compute_hydrologic_year_volumes Examples.scenario
     (Examples.at_minute 9999 10 1 0 0) (Examples.at_minute 9999 12 1 0 0)
   = Raise ValueError).
Proof.
  apply (split_raises_outside_years Examples.scenario
           (Examples.at_minute 9999 10 1 0 0)
           (Examples.at_minute 9999 12 1 0 0));
    reflexivity.
Defined.



(** *** The yearly volumes against the volume of the whole query *)




Section YearSum.

Variable data : list sample.
Variables s e : datetime.
Hypothesis Hv : valid_series data.
Hypothesis Hasc : strictly_ascending data.
Hypothesis Hq : nonneg_series data.
Hypothesis Hs : valid s.
Hypothesis He : valid e.


End YearSum.



End HydroMore.

(** ** The lookup table *)

Module TableMore.

Import Uvf2volumeSoll LinearInterpolation MoreSpec FloatFacts BisectFacts
  InterpFacts.

(** *** [load_table_2col] keeps the rows *)

Lemma insert_by_key_perm {A : Type} (key : A -> Q) i l :
  Permutation (insert_by_key key i l) (i :: l).
Proof.
  induction l as [| j l IH]; cbn [insert_by_key]; [reflexivity |].
  destruct (Qltb (key i) (key j)); [reflexivity |].
  rewrite IH. apply perm_swap.
Qed.

Lemma sorted_by_key_perm {A : Type} (key : A -> Q) l :
  Permutation (sorted_by_key key l) l.
Proof.
  unfold sorted_by_key.
  assert (H : forall acc,
             Permutation
               (fold_left (fun acc i => insert_by_key key i acc) l acc)
               (acc ++ l)).
  { induction l as [| i l IH]; intros acc; cbn [fold_left].
    - now rewrite app_nil_r.
    - eapply Permutation_trans; [apply IH |].
      eapply Permutation_trans;
        [apply Permutation_app_tail, insert_by_key_perm |].
      apply Permutation_middle. }
  apply (H []).
Qed.

Lemma rows_from_seq (rows : list (Q * Q)) :
  map (fun i => (nth i (map fst rows) 0%Q, nth i (map snd rows) 0%Q))
    (seq 0 (length rows))
  = rows.
Proof.
  induction rows as [| [x y] rows IH]; [reflexivity |].
  cbn [length seq map nth fst snd]. f_equal.
  rewrite <- seq_shift, map_map. exact IH.
Qed.

Lemma combine_map {A B C : Type} (f : A -> B) (g : A -> C) l :
  combine (map f l) (map g l) = map (fun i => (f i, g i)) l.
Proof. induction l; cbn; now f_equal. Qed.

(** X18: [load_table_2col] returns the x-column in ascending order and keeps
    every row: the pairs [(xs[i], ys[i])] of the result are the rows of the
    input, rearranged. *)
Theorem load_table_2col_sorts_rows (rows : list (Q * Q)) :
  Sorted Qle (fst (load_table_2col rows)) /\
  Permutation
    (combine (fst (load_table_2col rows)) (snd (load_table_2col rows)))
    rows.
Proof.
  split; [apply load_table_2col_sorted |].
  unfold load_table_2col. cbv zeta. cbn [fst snd].
  rewrite combine_map, length_map.
  eapply Permutation_trans;
    [apply Permutation_map, sorted_by_key_perm |].
  now rewrite rows_from_seq.
Qed.

(** *** Shape of [interp] on a sorted table *)

Lemma fraction_bounds (n d : Q) :
  (0 < n)%Q -> (n <= d)%Q -> (0 <= n / d)%Q /\ (n / d <= 1)%Q.
Proof.
  intros Hn Hd. split.
  - apply Qle_shift_div_l; lra.
  - apply Qle_shift_div_r; lra.
Qed.

Lemma interp_regions (xs ys : list Q) (x : Q) :
  Sorted Qle xs -> (2 <= length xs)%nat -> length ys = length xs ->
  exists y, interp x xs ys = Ok y /\ interp_region xs ys x y.
Proof.
  intros Hs Hlen Hys.
  destruct (Qlt_le_dec (nth 0 xs 0%Q) x) as [Hlo | Hlo].
  - destruct (Qlt_le_dec x (last xs 0%Q)) as [Hhi | Hhi].
    + destruct (interp_inside xs ys Hlen Hys x Hs Hlo Hhi)
        as (Hr & H0 & H1 & Hint).
      destruct (bisect_left_spec xs x Hs) as (_ & Hr1 & _).
      eexists. split; [exact Hint |].
      now apply (region_inside xs ys x _ (bisect_left xs x)).
    + eexists. split; [now apply interp_above |].
      now apply region_above.
  - eexists. split; [now apply interp_below |].
    now apply region_below.
Qed.


(** X19: on a table of at least two pairs sorted by x, [interp] returns
    a value for every query and never extrapolates: the value is the
    first y, the last y, or [y0 + t * (y1 - y0)] for two consecutive rows
    [(x0, y0)], [(x1, y1)] with [x0 < x <= x1], where the interpolation
    parameter [t = (x - x0) / (x1 - x0)] lies between 0 and 1. *)
Theorem interp_never_extrapolates (xs ys : list Q) (x : Q) :
  Sorted Qle xs -> (2 <= length xs)%nat -> length ys = length xs ->
  exists y,
    interp x xs ys = Ok y /\
    (y = nth 0 ys 0%Q \/ y = last ys 0%Q \/
     exists r t,
       (1 <= r < length xs)%nat /\
       (nth (r - 1) xs 0%Q < x)%Q /\ (x <= nth r xs 0%Q)%Q /\
       t = ((x - nth (r - 1) xs 0%Q)
            / (nth r xs 0%Q - nth (r - 1) xs 0%Q))%Q /\
       (0 <= t)%Q /\ (t <= 1)%Q /\
       y = (nth (r - 1) ys 0%Q
            + t * (nth r ys 0%Q - nth (r - 1) ys 0%Q))%Q).
Proof.
  intros Hs Hlen Hys.
  destruct (interp_regions xs ys x Hs Hlen Hys) as (y & Hy & Hreg).
  exists y. split; [exact Hy |].
  destruct Hreg as [H0 -> | H0 H1 -> | r Hr Hbefore Hx Hlast ->].
  - now left.
  - right. now left.
  - right. right.
    assert (H0 : (nth (r - 1) xs 0%Q < x)%Q) by (apply Hbefore; lia).
    destruct (fraction_bounds (x - nth (r - 1) xs 0%Q)
                (nth r xs 0%Q - nth (r - 1) xs 0%Q)) as [Ht0 Ht1]; try lra.
    exists r, ((x - nth (r - 1) xs 0%Q)
               / (nth r xs 0%Q - nth (r - 1) xs 0%Q))%Q.
    repeat split; try assumption; lia.
Qed.

Lemma interp_never_extrapolates_witness :
  exists y,
    interp (3 # 10) (fst (load_table_2col Examples.table_rows))
      (snd (load_table_2col Examples.table_rows)) = Ok y /\
    (y = nth 0 (snd (load_table_2col Examples.table_rows)) 0%Q \/
     y = last (snd (load_table_2col Examples.table_rows)) 0%Q \/
     exists r t,
       (1 <= r < length (fst (load_table_2col Examples.table_rows)))%nat /\
       (nth (r - 1) (fst (load_table_2col Examples.table_rows)) 0%Q
        < 3 # 10)%Q /\
       (3 # 10 <= nth r (fst (load_table_2col Examples.table_rows)) 0%Q)%Q /\
       t = (((3 # 10)
             - nth (r - 1) (fst (load_table_2col Examples.table_rows)) 0%Q)
            / (nth r (fst (load_table_2col Examples.table_rows)) 0%Q
               - nth (r - 1) (fst (load_table_2col Examples.table_rows))
                   0%Q))%Q /\
       (0 <= t)%Q /\ (t <= 1)%Q /\
       y = (nth (r - 1) (snd (load_table_2col Examples.table_rows)) 0%Q
            + t * (nth r (snd (load_table_2col Examples.table_rows)) 0%Q
                   - nth (r - 1) (snd (load_table_2col Examples.table_rows))
                       0%Q))%Q).
Proof.
  apply (interp_never_extrapolates
           (fst (load_table_2col Examples.table_rows))
           (snd (load_table_2col Examples.table_rows)) (3 # 10)%Q).
  - exact scenario_table_sorted.
  - cbn. lia.
  - reflexivity.
Defined.



End TableMore.

(** ** Two-point interpolation *)

Module LerpFacts.

Import Uvf2volumeSoll LinearInterpolation FloatFacts BisectFacts InterpFacts.

(** The insertion index in the two-element list [[x0; x1]], whatever the
    order of [x0] and [x1]. *)
Lemma bisect_left_pair (x0 x1 x : Q) :
  bisect_left [x0; x1] x
  = if Qltb x1 x then 2%nat else if Qltb x0 x then 1%nat else 0%nat.
Proof.
  unfold bisect_left.
  cbn [length bisect_loop Nat.ltb Nat.leb Nat.add Nat.div Nat.divmod
       fst nth].
  destruct (Qltb x1 x); [reflexivity |].
  cbn [bisect_loop Nat.ltb Nat.leb Nat.add Nat.div Nat.divmod fst nth].
  now destruct (Qltb x0 x).
Qed.

Lemma truediv_zero (a b : Q) :
  (b == 0)%Q -> truediv a b = Raise ZeroDivisionError.
Proof.
  intros H. unfold truediv.
  now replace (Qeq_bool b 0) with true by (symmetry; now apply Qeq_bool_iff).
Qed.

(** X21: [lerp_with_bisect] queried above [x1] raises IndexError: the
    insertion index is 2, and [xs[2]] is out of range. *)
Theorem lerp_with_bisect_above_raises (x0 x1 y0 y1 x : Q) :
  (x1 < x)%Q -> lerp_with_bisect x0 x1 y0 y1 x = Raise IndexError.
Proof.
  intros H. unfold lerp_with_bisect. cbv zeta.
  rewrite bisect_left_pair.
  replace (Qltb x1 x) with true by (symmetry; now apply Qltb_lt).
  reflexivity.
Qed.

Lemma lerp_with_bisect_above_raises_witness :
  lerp_with_bisect (28 # 100) (50 # 100) (25 # 100) (39 # 100) (60 # 100)
  = Raise IndexError /\ (50 # 100 < 60 # 100)%Q.
Proof.
  split; [| reflexivity].
  apply (lerp_with_bisect_above_raises
           (28 # 100) (50 # 100) (25 # 100) (39 # 100) (60 # 100)).
  reflexivity.
Defined.

(** At or below both abscissae the index is 0, [xs[-1]] wraps around to
    [x1], and the pair is used in reverse. *)
Lemma lerp_with_bisect_wraps (x0 x1 y0 y1 x : Q) :
  (x <= x0)%Q -> (x <= x1)%Q ->
  lerp_with_bisect x0 x1 y0 y1 x
  = (t <- truediv (x - x1) (x0 - x1) ;; Ok (y0 + t * (y1 - y0))%Q).
Proof.
  intros H0 H1. unfold lerp_with_bisect. cbv zeta.
  rewrite bisect_left_pair.
  replace (Qltb x1 x) with false by (symmetry; now apply Qltb_ge).
  replace (Qltb x0 x) with false by (symmetry; now apply Qltb_ge).
  reflexivity.
Qed.

Lemma lerp_with_bisect_low (x0 x1 y0 y1 x : Q) :
  (x <= x0)%Q -> (x <= x1)%Q -> ~ (x0 == x1)%Q ->
  lerp_with_bisect x0 x1 y0 y1 x
  = Ok (y0 + (x - x1) / (x0 - x1) * (y1 - y0))%Q.
Proof.
  intros H0 H1 Hne. rewrite lerp_with_bisect_wraps by assumption.
  rewrite truediv_ok; [reflexivity |].
  intros E. apply Hne. lra.
Qed.

(** The closed bracket [x0 < x <= x1]: index 1, the pair in order. *)
Lemma lerp_with_bisect_bracket (x0 x1 y0 y1 x : Q) :
  (x0 < x)%Q -> (x <= x1)%Q ->
  lerp_with_bisect x0 x1 y0 y1 x
  = Ok (y0 + (x - x0) / (x1 - x0) * (y1 - y0))%Q.
Proof.
  intros H0 H1. unfold lerp_with_bisect. cbv zeta.
  rewrite bisect_left_pair.
  replace (Qltb x1 x) with false by (symmetry; now apply Qltb_ge).
  replace (Qltb x0 x) with true by (symmetry; now apply Qltb_lt).
  change (Z.of_nat 1 - 1) with (Z.of_nat 0).
  rewrite (getitem_nth [x0; x1] 0 0%Q) by (cbn; lia).
  rewrite (getitem_nth [x0; x1] 1 0%Q) by (cbn; lia).
  cbn [bind nth]. rewrite truediv_ok by lra. reflexivity.
Qed.

(** X22: at or below both abscissae, with [x0 <> x1], no error is raised
    and the result lies on the line through [(x1, y0)] and [(x0, y1)]:
    the negative index [xs[-1]] pairs [x1] with [y0]. *)
Theorem lerp_with_bisect_below_reverses (x0 x1 y0 y1 x : Q) :
  (x <= x0)%Q -> (x <= x1)%Q -> ~ (x0 == x1)%Q ->
  lerp_with_bisect x0 x1 y0 y1 x
  = Ok (y0 + (x - x1) / (x0 - x1) * (y1 - y0))%Q.
Proof.
  intros H0 H1 Hne. unfold lerp_with_bisect. cbv zeta.
  rewrite bisect_left_pair.
  replace (Qltb x1 x) with false by (symmetry; now apply Qltb_ge).
  replace (Qltb x0 x) with false by (symmetry; now apply Qltb_ge).
  change (Z.of_nat 0 - 1) with (-1).
  rewrite (getitem_last [x0; x1] 0%Q) by discriminate.
  rewrite (getitem_nth [x0; x1] 0 0%Q) by (cbn; lia).
  cbn [bind last nth]. rewrite truediv_ok; [reflexivity |].
  intros E. apply Hne. lra.
Qed.

Lemma lerp_with_bisect_below_reverses_witness :
  lerp_with_bisect (28 # 100) (50 # 100) (25 # 100) (39 # 100) (20 # 100)
  = Ok ((25 # 100)
        + ((20 # 100) - (50 # 100)) / ((28 # 100) - (50 # 100))
          * ((39 # 100) - (25 # 100)))%Q
  /\ (20 # 100 <= 28 # 100)%Q.
Proof.
  split.
  - apply (lerp_with_bisect_below_reverses
             (28 # 100) (50 # 100) (25 # 100) (39 # 100) (20 # 100)).
    + discriminate.
    + discriminate.
    + discriminate.
  - discriminate.
Defined.

(** X23: over an ascending pair [x0 < x1], the query [x0] is evaluated
    like the query [x1], with the interpolation parameter 1 and not 0:
    each of the two results is [y0 + t * (y1 - y0)] with [t] equal to 1,
    the quotient of a non-zero difference by itself. *)
Theorem lerp_with_bisect_at_ends (x0 x1 y0 y1 : Q) :
  (x0 < x1)%Q ->
  exists ta tb,
    ta = ((x0 - x1) / (x0 - x1))%Q /\ (ta == 1)%Q /\
    tb = ((x1 - x0) / (x1 - x0))%Q /\ (tb == 1)%Q /\
    lerp_with_bisect x0 x1 y0 y1 x0 = Ok (y0 + ta * (y1 - y0))%Q /\
    lerp_with_bisect x0 x1 y0 y1 x1 = Ok (y0 + tb * (y1 - y0))%Q.
Proof.
  intros H.
  exists ((x0 - x1) / (x0 - x1))%Q, ((x1 - x0) / (x1 - x0))%Q.
  split; [reflexivity |]. split; [field; lra |].
  split; [reflexivity |]. split; [field; lra |]. split.
  - apply lerp_with_bisect_low; lra.
  - apply lerp_with_bisect_bracket; lra.
Qed.

Lemma lerp_with_bisect_at_ends_witness :
  exists ta tb,
    ta = (((28 # 100) - (50 # 100)) / ((28 # 100) - (50 # 100)))%Q /\
    (ta == 1)%Q /\
    tb = (((50 # 100) - (28 # 100)) / ((50 # 100) - (28 # 100)))%Q /\
    (tb == 1)%Q /\
    lerp_with_bisect (28 # 100) (50 # 100) (25 # 100) (39 # 100) (28 # 100)
    = Ok ((25 # 100) + ta * ((39 # 100) - (25 # 100)))%Q /\
    lerp_with_bisect (28 # 100) (50 # 100) (25 # 100) (39 # 100) (50 # 100)
    = Ok ((25 # 100) + tb * ((39 # 100) - (25 # 100)))%Q.
Proof.
  apply (lerp_with_bisect_at_ends
           (28 # 100) (50 # 100) (25 # 100) (39 # 100)).
  reflexivity.
Defined.

(** X24: when the two abscissae are equal, every query at or below them
    raises ZeroDivisionError. *)
Theorem lerp_with_bisect_equal_abscissae (x0 x1 y0 y1 x : Q) :
  (x0 == x1)%Q -> (x <= x0)%Q ->
  lerp_with_bisect x0 x1 y0 y1 x = Raise ZeroDivisionError.
Proof.
  intros E H. rewrite lerp_with_bisect_wraps by lra.
  rewrite truediv_zero; [reflexivity | lra].
Qed.

Lemma lerp_with_bisect_equal_abscissae_witness :
  lerp_with_bisect 1 1 (25 # 100) (39 # 100) 1 = Raise ZeroDivisionError
  /\ (1 == 1)%Q.
Proof.
  split; [| reflexivity].
  apply (lerp_with_bisect_equal_abscissae 1 1 (25 # 100) (39 # 100) 1).
  - reflexivity.
  - discriminate.
Defined.

(** X25: strictly inside the bracket, [x0 < x < x1], [lerp_with_bisect]
    returns what [interp] returns over the two-row table
    [(x0, y0), (x1, y1)]: the same expression of the same operands. *)
Theorem lerp_agrees_with_interp (x0 x1 y0 y1 x : Q) :
  (x0 < x)%Q -> (x < x1)%Q ->
  lerp_with_bisect x0 x1 y0 y1 x = interp x [x0; x1] [y0; y1].
Proof.
  intros H0 H1.
  assert (Hs : Sorted Qle [x0; x1]).
  { repeat constructor. lra. }
  destruct (interp_inside [x0; x1] [y0; y1] (le_n 2) eq_refl x Hs)
    as (Hr & _ & _ & Hint); [exact H0 | exact H1 |].
  assert (Er : bisect_left [x0; x1] x = 1%nat).
  { rewrite bisect_left_pair.
    replace (Qltb x1 x) with false by (symmetry; apply Qltb_ge; lra).
    now replace (Qltb x0 x) with true by (symmetry; now apply Qltb_lt). }
  rewrite Er in Hint. cbn [nth Nat.sub] in Hint. rewrite Hint.
  apply lerp_with_bisect_bracket; lra.
Qed.

Lemma lerp_agrees_with_interp_witness :
  lerp_with_bisect (28 # 100) (50 # 100) (25 # 100) (39 # 100) (3 # 10)
  = interp (3 # 10) [28 # 100; 50 # 100] [25 # 100; 39 # 100]
  /\ (28 # 100 < 3 # 10)%Q.
Proof.
  split; [| reflexivity].
  apply (lerp_agrees_with_interp
           (28 # 100) (50 # 100) (25 # 100) (39 # 100) (3 # 10));
    reflexivity.
Defined.

End LerpFacts.

(** ** Ordinals and dates *)

Module OrdinalFacts.

Import Datetime DatetimeAdd Spec MoreSpec DatetimeFacts.

Lemma month_day_checked :
  forallb (fun i => month_day_ok false (Z.of_nat i)) (seq 0 365) = true /\
  forallb (fun i => month_day_ok true (Z.of_nat i)) (seq 0 366) = true.
Proof. split; vm_compute; reflexivity. Qed.

Lemma month_day_spec (leapyear : bool) (n : Z) :
  0 <= n < 365 + (if leapyear then 1 else 0) ->
  month_day_ok leapyear n = true.
Proof.
  intros Hn. destruct month_day_checked as [H0 H1].
  rewrite forallb_forall in H0, H1.
  replace n with (Z.of_nat (Z.to_nat n)) by lia.
  destruct leapyear; [apply H1 | apply H0]; apply in_seq; lia.
Qed.

Lemma ord2ymd_unfold (n : Z) :
  _ord2ymd n =
  let n0 := n - 1 in
  let n400 := n0 / 146097 in
  let r400 := n0 mod 146097 in
  let n100 := r400 / 36524 in
  let r100 := r400 mod 36524 in
  let n4 := r100 / 1461 in
  let r4 := r100 mod 1461 in
  let n1 := r4 / 365 in
  let r1 := r4 mod 365 in
  let year := n400 * 400 + 1 + (n100 * 100 + n4 * 4 + n1) in
  if (n1 =? 4) || (n100 =? 4) then (year - 1, 12, 31)
  else
    let leapyear := (n1 =? 3) && (negb (n4 =? 24) || (n100 =? 3)) in
    (year, fst (month_day leapyear r1), snd (month_day leapyear r1)).
Proof.
  unfold _ord2ymd, month_day, _DI400Y, _DI100Y, _DI4Y. cbv zeta.
  destruct (orb _ _); [reflexivity |].
  destruct (_ <? _); reflexivity.
Qed.

Lemma year_decompose (a b c e : Z) :
  0 <= a -> 0 <= b <= 3 -> 0 <= c <= 24 -> 0 <= e <= 3 ->
  let y := a * 400 + 1 + (b * 100 + c * 4 + e) in
  _days_before_year y = a * 146097 + b * 36524 + c * 1461 + e * 365 /\
  _is_leap y = (e =? 3) && (negb (c =? 24) || (b =? 3)).
Proof.
  intros Ha Hb Hc He y. subst y. split.
  - unfold _days_before_year. cbv zeta.
    Z.div_mod_to_equations. lia.
  - unfold _is_leap.
    destruct (Z.eqb_spec e 3), (Z.eqb_spec c 24), (Z.eqb_spec b 3);
      cbn [negb andb orb];
      repeat match goal with
             | |- context [?x =? 0] => destruct (Z.eqb_spec x 0)
             end;
      cbn [negb andb orb]; try reflexivity; exfalso;
      Z.div_mod_to_equations; lia.
Qed.

Lemma ord2ymd_spec (n : Z) :
  1 <= n <= _MAXORDINAL ->
  exists y m d,
    _ord2ymd n = (y, m, d) /\ 1 <= y <= 9999 /\ 1 <= m <= 12 /\
    1 <= d <= _days_in_month y m /\ _ymd2ord y m d = n.
Proof.
  unfold _MAXORDINAL. intros Hn. rewrite ord2ymd_unfold. cbv zeta.
  pose proof (Z.div_mod (n - 1) 146097 ltac:(lia)) as E400.
  pose proof (Z.mod_pos_bound (n - 1) 146097 ltac:(lia)) as B400.
  set (a := (n - 1) / 146097) in *. set (r400 := (n - 1) mod 146097) in *.
  pose proof (Z.div_mod r400 36524 ltac:(lia)) as E100.
  pose proof (Z.mod_pos_bound r400 36524 ltac:(lia)) as B100.
  set (b := r400 / 36524) in *. set (r100 := r400 mod 36524) in *.
  pose proof (Z.div_mod r100 1461 ltac:(lia)) as E4.
  pose proof (Z.mod_pos_bound r100 1461 ltac:(lia)) as B4.
  set (c := r100 / 1461) in *. set (r4 := r100 mod 1461) in *.
  pose proof (Z.div_mod r4 365 ltac:(lia)) as E1.
  pose proof (Z.mod_pos_bound r4 365 ltac:(lia)) as B1.
  set (e := r4 / 365) in *. set (r1 := r4 mod 365) in *.
  assert (Ha : 0 <= a <= 24) by lia.
  assert (Hb : 0 <= b <= 4) by lia.
  assert (Hc : 0 <= c <= 24) by lia.
  assert (He : 0 <= e <= 4) by lia.
  destruct (Z.eqb_spec e 4) as [He4 | He4];
    [| destruct (Z.eqb_spec b 4) as [Hb4 | Hb4]]; cbn [orb].
  - (* last day of a leap year closing a four-year cycle *)
    destruct (year_decompose a b c 3) as [Hd Hl]; try lia.
    cbv zeta in Hd, Hl.
    replace (a * 400 + 1 + (b * 100 + c * 4 + e) - 1)
      with (a * 400 + 1 + (b * 100 + c * 4 + 3)) by lia.
    assert (Hleap : _is_leap (a * 400 + 1 + (b * 100 + c * 4 + 3)) = true).
    { rewrite Hl. destruct (Z.eqb_spec c 24); [lia | reflexivity]. }
    do 3 eexists. split; [reflexivity |].
    unfold _ymd2ord, _days_before_month, _days_in_month.
    rewrite Hd, Hleap. cbn. lia.
  - (* last day of a 400-year cycle *)
    destruct (year_decompose a 3 24 3) as [Hd Hl]; try lia.
    cbv zeta in Hd, Hl.
    replace (a * 400 + 1 + (b * 100 + c * 4 + e) - 1)
      with (a * 400 + 1 + (3 * 100 + 24 * 4 + 3)) by lia.
    do 3 eexists. split; [reflexivity |].
    unfold _ymd2ord, _days_before_month, _days_in_month.
    rewrite Hd, Hl. cbn. lia.
  - destruct (year_decompose a b c e) as [Hd Hl]; try lia.
    cbv zeta in Hd, Hl.
    set (leap := (e =? 3) && (negb (c =? 24) || (b =? 3))) in *.
    assert (Hr1 : 0 <= r1 < 365 + (if leap then 1 else 0)).
    { destruct leap; lia. }
    pose proof (month_day_spec leap r1 Hr1) as Hmd.
    unfold month_day_ok in Hmd.
    destruct (month_day leap r1) as [m d]. cbn [fst snd].
    rewrite !andb_true_iff in Hmd.
    destruct Hmd as ((((Hm1 & Hm2) & Hd1) & Hd2) & Hord).
    do 3 eexists. split; [reflexivity |].
    unfold _ymd2ord, _days_before_month, _days_in_month.
    rewrite Hd, Hl. lia.
Qed.

Lemma add_in_range (d : datetime) (td : timedelta) :
  86400000000 <= to_us d + td < us_limit ->
  exists d', add d td = Some d' /\ valid d' /\ to_us d' = to_us d + td.
Proof.
  unfold us_limit, _MAXORDINAL. intros H. unfold add. cbv zeta.
  set (T := to_us d + td) in *.
  pose proof (Z.div_mod T 86400000000 ltac:(lia)) as Ed.
  pose proof (Z.mod_pos_bound T 86400000000 ltac:(lia)) as Bd.
  set (days := T / 86400000000) in *.
  set (rd := T mod 86400000000) in *.
  pose proof (Z.div_mod rd 1000000 ltac:(lia)) as Es.
  pose proof (Z.mod_pos_bound rd 1000000 ltac:(lia)) as Bs.
  assert (Eus : T mod 1000000 = rd mod 1000000).
  { unfold rd.
    rewrite (Z.mod_mod_divide T 86400000000 1000000); [reflexivity |].
    exists 86400. lia. }
  rewrite Eus.
  set (secs := rd / 1000000) in *. set (us := rd mod 1000000) in *.
  pose proof (Z.div_mod secs 3600 ltac:(lia)) as Eh.
  pose proof (Z.mod_pos_bound secs 3600 ltac:(lia)) as Bh.
  set (h := secs / 3600) in *. set (rem := secs mod 3600) in *.
  pose proof (Z.div_mod rem 60 ltac:(lia)) as Em.
  pose proof (Z.mod_pos_bound rem 60 ltac:(lia)) as Bm.
  set (mi := rem / 60) in *. set (se := rem mod 60) in *.
  assert (Hdays : 1 <= days <= 3652059) by lia.
  replace ((0 <? days) && (days <=? _MAXORDINAL)) with true
    by (symmetry; unfold _MAXORDINAL; apply andb_true_iff; split; lia).
  destruct (ord2ymd_spec days Hdays) as (y & m & dd & -> & Hy & Hm & Hdd & Ho).
  eexists. split; [reflexivity |]. split.
  - unfold valid, check_fields. cbn [year month day hour minute second
                                       microsecond].
    repeat (apply andb_true_iff; split); lia.
  - unfold to_us, toordinal.
    cbn [year month day hour minute second microsecond].
    rewrite Ho. lia.
Qed.

Lemma add_overflow (d : datetime) (td : timedelta) :
  us_limit <= to_us d + td -> add d td = None.
Proof.
  unfold us_limit, _MAXORDINAL. intros H. unfold add. cbv zeta.
  set (T := to_us d + td) in *.
  assert (3652060 <= T / 86400000000).
  { apply Z.div_le_lower_bound; lia. }
  replace ((0 <? T / 86400000000) && (T / 86400000000 <=? _MAXORDINAL))
    with false; [reflexivity |].
  symmetry. unfold _MAXORDINAL. apply andb_false_iff. right. lia.
Qed.

End OrdinalFacts.

(** ** Gap filling *)

Module FillFacts.

Import Datetime DatetimeAdd Uvf2volume Uvf2volumeFill Spec MoreSpec.
Import DatetimeFacts VolumeFacts OrdinalFacts IntegralFacts.

Lemma five_minutes_us : timedelta_minutes 5 = five_us.
Proof. reflexivity. Qed.

Lemma latest_fillable_us : to_us latest_fillable + five_us = us_limit - 1.
Proof. reflexivity. Qed.

Lemma latest_fillable_valid : valid latest_fillable.
Proof. reflexivity. Qed.

Lemma valid_to_us (d : datetime) :
  valid d -> 86400000000 <= to_us d < us_limit.
Proof.
  intros H.
  pose proof (valid_bounds d H) as (Hy & Hm & Hd & Hh & Hmi & Hs & Hu).
  pose proof (day_of_year_bounds (year d) _ _ Hm Hd) as B.
  unfold to_us, toordinal, _ymd2ord, us_limit, _MAXORDINAL.
  assert (Hyear : 0 <= _days_before_year (year d)
                  /\ _days_before_year (year d) + 365
                     + (if _is_leap (year d) then 1 else 0) <= 3652059);
    [| lia].
  clear B. unfold _days_before_year. cbv zeta.
  destruct (Z_le_gt_dec 9997 (year d)) as [Hhi | Hlo].
  - assert (Hc : year d = 9997 \/ year d = 9998 \/ year d = 9999) by lia.
    destruct Hc as [E | [E | E]]; rewrite E; split; reflexivity || discriminate.
  - assert (0 <= (year d - 1) / 4 <= 2499).
    { split; [apply Z.div_pos; lia |].
      apply Z.div_le_upper_bound; lia. }
    assert (0 <= (year d - 1) / 100 <= (year d - 1) / 4).
    { split; [apply Z.div_pos; lia |].
      apply Z.div_le_compat_l; lia. }
    assert (0 <= (year d - 1) / 400 < 25).
    { split; [apply Z.div_pos; lia |].
      apply Z.div_lt_upper_bound; lia. }
    destruct (_is_leap (year d)); lia.
Qed.

Lemma fillable_us (t : datetime) :
  valid t -> leb t latest_fillable = true -> to_us t + five_us < us_limit.
Proof.
  intros Hv H. pose proof latest_fillable_valid. dt_to_Z.
  pose proof latest_fillable_us. lia.
Qed.

(** *** The inner loop *)

Lemma fill_gap_spec (t : datetime) (q : Q) (fuel : nat) :
  valid t -> to_us t + five_us < us_limit ->
  forall next filled,
    valid next ->
    to_us t <= to_us next + five_us * Z.of_nat fuel ->
    exists gap,
      fill_gap fuel next t q filled = Some (filled ++ gap) /\
      stepped (to_us next) q gap /\
      to_us t <= to_us next + five_us * Z.of_nat (length gap) /\
      (gap <> [] ->
       to_us next + five_us * (Z.of_nat (length gap) - 1) < to_us t).
Proof.
  intros Ht Hlim.
  induction fuel as [| fuel IH]; intros next filled Hn Hfuel.
  - exists []. cbn [fill_gap length stepped]. rewrite app_nil_r.
    repeat split; [lia | congruence].
  - cbn [fill_gap]. destruct (ltb next t) eqn:E; dt_to_Z.
    + destruct (add_in_range next (timedelta_minutes 5))
        as (next' & -> & Hn' & Hus).
      { rewrite five_minutes_us. pose proof (valid_to_us next Hn).
        unfold five_us in *. lia. }
      rewrite five_minutes_us in Hus.
      destruct (IH next' (filled ++ [(next, q)]) Hn') as (gap & -> & Hg & Hle & Hlt).
      { lia. }
      exists ((next, q) :: gap). rewrite <- app_assoc. cbn [app].
      split; [reflexivity |]. cbn [stepped fst snd length].
      rewrite <- Hus. repeat split; try assumption; try lia.
      intros _. destruct gap as [| g gap'].
      * cbn [length]. lia.
      * specialize (Hlt ltac:(congruence)). lia.
    + exists []. cbn [length stepped]. rewrite app_nil_r.
      repeat split; [lia | congruence].
Qed.

Lemma gap_fuel_enough (next t : datetime) :
  to_us t <= to_us next + five_us * Z.of_nat (gap_fuel next t).
Proof.
  unfold gap_fuel. rewrite five_minutes_us. unfold five_us.
  pose proof (Z.div_mod (to_us t - to_us next) 300000000 ltac:(lia)).
  pose proof (Z.mod_pos_bound (to_us t - to_us next) 300000000 ltac:(lia)).
  lia.
Qed.

(** *** The outer loop *)

Lemma fill_loop_spec (rest : list sample) :
  valid_series rest -> fillable rest ->
  forall prev_t prev_q filled,
    valid prev_t -> leb prev_t latest_fillable = true ->
    exists tail,
      fill_loop rest prev_t prev_q filled = Some (filled ++ tail) /\
      filling (prev_t, prev_q) rest tail.
Proof.
  induction rest as [| [t q] rest IH];
    intros Hv Hf prev_t prev_q filled Hp Hpf.
  - exists []. rewrite app_nil_r. split; [reflexivity | constructor].
  - inversion Hv as [| ? ? Ht Hv']; subst.
    inversion Hf as [| ? ? Htf Hf']; subst. cbn [fst] in Ht, Htf.
    cbn [fill_loop].
    destruct (add_in_range prev_t (timedelta_minutes 5))
      as (next & -> & Hn & Hus).
    { rewrite five_minutes_us. pose proof (valid_to_us prev_t Hp).
      pose proof (fillable_us prev_t Hp Hpf). unfold five_us in *. lia. }
    rewrite five_minutes_us in Hus.
    destruct (fill_gap_spec t prev_q (gap_fuel next t) Ht
                (fillable_us t Ht Htf) next filled Hn
                (gap_fuel_enough next t))
      as (gap & -> & Hg & Hle & Hlt).
    destruct (IH Hv' Hf' t q ((filled ++ gap) ++ [(t, q)]) Ht Htf)
      as (tail & -> & Hfill).
    exists (gap ++ (t, q) :: tail).
    split; [now rewrite <- !app_assoc |].
    constructor; [| exact Hfill].
    unfold gap_ok. rewrite <- Hus. repeat split; [exact Hg | lia |].
    intros Hne. specialize (Hlt Hne). lia.
Qed.

Lemma fill_missing_5min_spec (first : sample) (rest : list sample) :
  valid_series (first :: rest) -> fillable (first :: rest) ->
  exists tail,
    fill_missing_5min (first :: rest) = Some (first :: tail) /\
    filling first rest tail.
Proof.
  intros Hv Hf. destruct first as [t0 q0].
  inversion Hv as [| ? ? Ht Hv']; subst.
  inversion Hf as [| ? ? Htf Hf']; subst.
  exact (fill_loop_spec rest Hv' Hf' t0 q0 [(t0, q0)] Ht Htf).
Qed.

(** *** What a filling is made of *)

Lemma stepped_valid u q gap :
  stepped u q gap -> valid_series gap.
Proof.
  revert u. induction gap as [| s gap IH]; intros u H; [constructor |].
  destruct H as (Hv & _ & _ & H). constructor; [exact Hv | exact (IH _ H)].
Qed.

Lemma stepped_before u q gap x :
  stepped u q gap ->
  (gap <> [] -> u + five_us * (Z.of_nat (length gap) - 1) < x) ->
  Forall (fun s => to_us (fst s) < x) gap.
Proof.
  revert u. induction gap as [| s gap IH]; intros u H Hx; [constructor |].
  destruct H as (Hv & Hu & _ & H). specialize (Hx ltac:(congruence)).
  cbn [length] in Hx. unfold five_us in *. constructor; [lia |].
  apply (IH (u + 300000000)); [exact H |]. intros _. lia.
Qed.

Lemma filling_valid prev rest tail :
  filling prev rest tail -> valid_series rest -> valid_series tail.
Proof.
  induction 1 as [| pt pq t q rest gap tail Hg Hf IH]; intros Hv;
    [constructor |].
  inversion Hv as [| ? ? Ht Hv']; subst.
  destruct Hg as (Hst & _ & _).
  apply Forall_app. split; [exact (stepped_valid _ _ _ Hst) |].
  constructor; [exact Ht | now apply IH].
Qed.

Lemma filling_fillable prev rest tail :
  filling prev rest tail -> valid_series rest -> fillable rest ->
  fillable tail.
Proof.
  induction 1 as [| pt pq t q rest gap tail Hg Hf IH]; intros Hv Hfl;
    [constructor |].
  inversion Hv as [| ? ? Ht Hv']; subst.
  inversion Hfl as [| ? ? Htf Hfl']; subst. cbn [fst] in Ht, Htf.
  destruct Hg as (Hst & _ & Hlt).
  apply Forall_app. split; [| constructor; [exact Htf | now apply IH]].
  pose proof (stepped_valid _ _ _ Hst) as Hgv.
  assert (Hb : Forall (fun s => to_us (fst s) < to_us t) gap).
  { apply (stepped_before _ _ _ _ Hst). intros Hne. specialize (Hlt Hne).
    unfold five_us in *. lia. }
  pose proof latest_fillable_valid.
  clear Hst Hlt. induction Hb as [| s gap Hs Hb IHb]; [constructor |].
  inversion Hgv; subst. constructor; [| now apply IHb].
  dt_to_Z. lia.
Qed.

(** A chain through a gap: [prev], then the steps of the gap, then
    [(t, q)]. *)
Lemma sorted_through_gap (R : sample -> sample -> Prop) (t : datetime)
    (q q0 : Q) (tail : list sample) (gap : list sample) :
  (forall s1 s2, valid (fst s1) -> valid (fst s2) ->
     to_us (fst s2) = to_us (fst s1) + five_us -> R s1 s2) ->
  Sorted R ((t, q) :: tail) ->
  forall prev,
    valid (fst prev) ->
    stepped (to_us (fst prev) + five_us) q0 gap ->
    (forall s, valid (fst s) ->
       to_us (fst s) = to_us (fst prev) + five_us * Z.of_nat (length gap) ->
       R s (t, q)) ->
    Sorted R (prev :: gap ++ (t, q) :: tail).
Proof.
  intros Hstep Htail.
  induction gap as [| s gap IH]; intros prev Hp Hst Hlast.
  - cbn [app]. constructor; [exact Htail |]. constructor.
    apply Hlast; [exact Hp |]. cbn [length]. lia.
  - destruct Hst as (Hv & Hu & _ & Hst). cbn [app].
    constructor.
    + apply IH; [exact Hv | now rewrite Hu |].
      intros s' Hv' Hs'. apply Hlast; [exact Hv' |].
      cbn [length]. lia.
    + constructor. now apply Hstep.
Qed.

Lemma filling_steps prev rest tail :
  filling prev rest tail -> valid_series (prev :: rest) ->
  five_minute_steps (prev :: tail).
Proof.
  unfold five_minute_steps.
  induction 1 as [| pt pq t q rest gap tail Hg Hf IH]; intros Hv.
  - repeat constructor.
  - inversion Hv as [| ? ? Hp Hv']; subst. cbn [fst] in Hp.
    destruct Hg as (Hst & Hle & _).
    apply (sorted_through_gap _ t q pq tail gap); try assumption.
    + intros s1 s2 _ _ E. cbn [fst]. rewrite sub_to_us.
      unfold total_seconds, Qle, five_us in *. cbn. lia.
    + now apply IH.
    + intros s _ E. cbn [fst] in *. rewrite sub_to_us.
      unfold total_seconds, Qle, five_us in *. cbn. lia.
Qed.

Lemma filling_strictly_ascending prev rest tail :
  filling prev rest tail -> valid_series (prev :: rest) ->
  strictly_ascending (prev :: rest) -> strictly_ascending (prev :: tail).
Proof.
  unfold strictly_ascending.
  induction 1 as [| pt pq t q rest gap tail Hg Hf IH]; intros Hv Hs.
  - repeat constructor.
  - inversion Hv as [| ? ? Hp Hv']; subst. cbn [fst] in Hp.
    inversion Hv' as [| ? ? Ht _]; subst. cbn [fst] in Ht.
    inversion Hs as [| ? ? Hs' Hh]; subst.
    inversion Hh as [| ? ? Hpt]; subst. cbn [fst] in Hpt.
    destruct Hg as (Hst & Hle & Hlt).
    apply (sorted_through_gap _ t q pq tail gap); try assumption.
    + intros s1 s2 H1 H2 E. dt_to_Z. unfold five_us in E. lia.
    + now apply IH.
    + intros s H1 E. cbn [fst] in *. dt_to_Z.
      destruct gap as [| g gap']; [cbn [length] in E; lia |].
      specialize (Hlt ltac:(congruence)). lia.
Qed.

(** *** The step function of a filling *)

Lemma overlap_split t0 t1 t2 a b :
  to_us t0 <= to_us t1 -> to_us t1 <= to_us t2 ->
  (overlap t0 t2 a b == overlap t0 t1 a b + overlap t1 t2 a b)%Q.
Proof.
  intros. unfold overlap. rewrite <- total_seconds_add.
  match goal with
  | |- (total_seconds ?x == total_seconds ?y)%Q =>
      replace x with y by lia
  end.
  reflexivity.
Qed.

Lemma step_integral_through_gap (t : datetime) (q : Q)
    (tail : list sample) (a b : datetime) (pq : Q) (gap : list sample) :
  forall pt,
    stepped (to_us pt + five_us) pq gap ->
    (gap <> [] ->
     to_us pt + five_us * Z.of_nat (length gap) < to_us t) ->
    (step_integral ((pt, pq) :: gap ++ (t, q) :: tail) a b
     == pq * overlap pt t a b + step_integral ((t, q) :: tail) a b)%Q.
Proof.
  induction gap as [| [gt gq] gap IH]; intros pt Hst Hlt.
  - cbn [app]. rewrite step_integral_cons2. reflexivity.
  - destruct Hst as (Hv & Hu & Hq & Hst). cbn [fst snd] in Hu, Hq.
    subst gq. specialize (Hlt ltac:(congruence)). cbn [length] in Hlt.
    cbn [app]. rewrite step_integral_cons2.
    rewrite (IH gt).
    + rewrite (overlap_split pt gt t a b); [ring | |];
        unfold five_us in *; lia.
    + now rewrite Hu.
    + intros _. unfold five_us in *. lia.
Qed.

Lemma filling_step_integral prev rest tail a b :
  filling prev rest tail ->
  (step_integral (prev :: tail) a b == step_integral (prev :: rest) a b)%Q.
Proof.
  induction 1 as [| pt pq t q rest gap tail Hg Hf IH]; [reflexivity |].
  destruct Hg as (Hst & _ & Hlt).
  rewrite (step_integral_through_gap t q tail a b pq gap pt Hst Hlt).
  rewrite step_integral_cons2, IH. reflexivity.
Qed.

(** *** Series that need no filling *)

Lemma filling_dense prev rest tail :
  filling prev rest tail -> five_minute_steps (prev :: rest) ->
  tail = rest.
Proof.
  unfold five_minute_steps.
  induction 1 as [| pt pq t q rest gap tail Hg Hf IH]; intros Hs;
    [reflexivity |].
  inversion Hs as [| ? ? Hs' Hh]; subst.
  inversion Hh as [| ? ? Hpt]; subst. cbn [fst] in Hpt.
  rewrite sub_to_us in Hpt.
  assert (Hd : to_us t - to_us pt <= 300000000).
  { unfold total_seconds, Qle in Hpt. cbn in Hpt. lia. }
  destruct Hg as (_ & _ & Hlt).
  destruct gap as [| g gap'].
  - cbn [app]. f_equal. now apply IH.
  - specialize (Hlt ltac:(congruence)). cbn [length] in Hlt.
    unfold five_us in *. lia.
Qed.

(** *** Properties of [fill_missing_5min] *)

(** X26: on a series of valid timestamps none of which is later than
    9999-12-31 23:54:59.999999, [fill_missing_5min] returns a series of
    valid timestamps in which no timestamp is more than five minutes
    later than its predecessor, and which is strictly ascending when the
    input is. *)
Theorem fill_missing_5min_closes_gaps (data : list sample) :
  valid_series data -> fillable data ->
  exists filled,
    fill_missing_5min data = Some filled /\
    valid_series filled /\ five_minute_steps filled /\
    (strictly_ascending data -> strictly_ascending filled).
Proof.
  intros Hv Hf. destruct data as [| first rest].
  { exists []. repeat split; [constructor | constructor | auto]. }
  destruct (fill_missing_5min_spec first rest Hv Hf) as (tail & E & Hfill).
  exists (first :: tail). split; [exact E |].
  inversion Hv as [| ? ? H1 Hv']; subst.
  repeat split.
  - constructor; [exact H1 | exact (filling_valid _ _ _ Hfill Hv')].
  - exact (filling_steps _ _ _ Hfill Hv).
  - exact (filling_strictly_ascending _ _ _ Hfill Hv).
Qed.

Lemma fill_missing_5min_closes_gaps_witness :
  exists filled,
    fill_missing_5min MoreExamples.gappy = Some filled /\
    valid_series filled /\ five_minute_steps filled /\
    (strictly_ascending MoreExamples.gappy -> strictly_ascending filled).
Proof.
  apply (fill_missing_5min_closes_gaps MoreExamples.gappy).
  - repeat constructor.
  - repeat constructor.
Defined.

(** X27: filling does not change the step function of the series: on a
    series of valid timestamps none of which is later than
    9999-12-31 23:54:59.999999, in any order, the integral of the step
    function of the filled series over any interval is that of the series
    itself (every inserted sample repeats the value that was in force). *)
Theorem fill_missing_5min_keeps_step_function (data : list sample)
    (a b : datetime) :
  valid_series data -> fillable data ->
  exists filled,
    fill_missing_5min data = Some filled /\
    (step_integral filled a b == step_integral data a b)%Q.
Proof.
  intros Hv Hf. destruct data as [| first rest].
  { exists []. split; reflexivity. }
  destruct (fill_missing_5min_spec first rest Hv Hf) as (tail & E & Hfill).
  exists (first :: tail). split; [exact E |].
  exact (filling_step_integral _ _ _ a b Hfill).
Qed.

Lemma fill_missing_5min_keeps_step_function_witness :
  exists filled,
    fill_missing_5min MoreExamples.gappy = Some filled /\
    (step_integral filled
       (Examples.at_minute 2000 1 1 0 3) (Examples.at_minute 2000 1 1 0 19)
     == step_integral MoreExamples.gappy
          (Examples.at_minute 2000 1 1 0 3)
          (Examples.at_minute 2000 1 1 0 19))%Q.
Proof.
  apply (fill_missing_5min_keeps_step_function MoreExamples.gappy
           (Examples.at_minute 2000 1 1 0 3)
           (Examples.at_minute 2000 1 1 0 19)).
  - repeat constructor.
  - repeat constructor.
Defined.

(** X28: among the series of valid timestamps none of which is later
    than 9999-12-31 23:54:59.999999, those that [fill_missing_5min]
    returns unchanged are exactly those in which no timestamp is more
    than five minutes later than its predecessor. *)
Theorem fill_missing_5min_fixed_points (data : list sample) :
  valid_series data -> fillable data ->
  (fill_missing_5min data = Some data <-> five_minute_steps data).
Proof.
  intros Hv Hf. destruct data as [| first rest].
  { split; [constructor | reflexivity]. }
  destruct (fill_missing_5min_spec first rest Hv Hf) as (tail & E & Hfill).
  split.
  - intros E'. rewrite E' in E. injection E as <-.
    exact (filling_steps _ _ _ Hfill Hv).
  - intros Hd. rewrite E. now rewrite (filling_dense _ _ _ Hfill Hd).
Qed.

Lemma fill_missing_5min_fixed_points_witness :
  fill_missing_5min Examples.scenario = Some Examples.scenario
  <-> five_minute_steps Examples.scenario.
Proof.
  apply (fill_missing_5min_fixed_points Examples.scenario).
  - repeat constructor.
  - repeat constructor.
Defined.

(** X29: filling twice is filling once: [fill_missing_5min] returns its
    own result unchanged. *)
Theorem fill_missing_5min_idempotent (data : list sample) :
  valid_series data -> fillable data ->
  exists filled,
    fill_missing_5min data = Some filled /\
    fill_missing_5min filled = Some filled.
Proof.
  intros Hv Hf. destruct data as [| first rest].
  { exists []. split; reflexivity. }
  destruct (fill_missing_5min_spec first rest Hv Hf) as (tail & E & Hfill).
  exists (first :: tail). split; [exact E |].
  inversion Hv as [| ? ? H1 Hv0]; subst.
  inversion Hf as [| ? ? H2 Hf0]; subst.
  assert (Hv' : valid_series (first :: tail))
    by (constructor; [exact H1 | exact (filling_valid _ _ _ Hfill Hv0)]).
  assert (Hf' : fillable (first :: tail))
    by (constructor;
        [exact H2 | exact (filling_fillable _ _ _ Hfill Hv0 Hf0)]).
  destruct (fill_missing_5min_spec first tail Hv' Hf')
    as (tail' & E' & Hfill').
  rewrite E'. f_equal. f_equal.
  apply (filling_dense _ _ _ Hfill').
  exact (filling_steps _ _ _ Hfill Hv).
Qed.

Lemma fill_missing_5min_idempotent_witness :
  exists filled,
    fill_missing_5min MoreExamples.gappy = Some filled /\
    fill_missing_5min filled = Some filled.
Proof.
  apply (fill_missing_5min_idempotent MoreExamples.gappy).
  - repeat constructor.
  - repeat constructor.
Defined.

(** X30: a series of two or more samples whose first timestamp is later
    than 9999-12-31 23:54:59.999999 makes [fill_missing_5min] raise
    OverflowError, whatever the other samples are. *)
Theorem fill_missing_5min_overflow (first second : sample)
    (rest : list sample) :
  valid (fst first) -> ltb latest_fillable (fst first) = true ->
  fill_missing_5min (first :: second :: rest) = None.
Proof.
  intros Hv Hlate. destruct first as [t0 q0], second as [t1 q1].
  cbn [fst] in *. pose proof latest_fillable_valid. dt_to_Z.
  pose proof latest_fillable_us.
  cbn [fill_missing_5min fill_loop].
  rewrite add_overflow; [reflexivity |].
  rewrite five_minutes_us. lia.
Qed.

Lemma fill_missing_5min_overflow_witness :
  fill_missing_5min MoreExamples.last_minutes = None
  /\ valid (Examples.at_minute 9999 12 31 23 56).
Proof.
  split; [| reflexivity].
  apply (fill_missing_5min_overflow
           (Examples.at_minute 9999 12 31 23 56, 1%Q)
           (Examples.at_minute 9999 12 31 23 58, 2%Q) []).
  - reflexivity.
  - reflexivity.
Defined.

End FillFacts.
